(** * sns-auto-publisher: the multi-platform publish pipeline

    A shallow embedding of the TypeScript sources
    ([src/index.ts], [src/config/env.ts], [src/services/*.ts],
    [src/types/index.ts]) and the properties of the pipeline driver that
    the specification states about them.

    Conventions of the embedding.
    - A JavaScript string is the list of its UTF-16 code units, so that
      [length], [firstn] and list equality are [String.prototype.length],
      [substring] and [===].
    - Asynchronous functions run strictly one after the other in the source
      (every call is awaited), so a function is a computation in the monad
      [M]: it reads the state, appends to a trace of observable events, and
      either returns a value or throws.
    - What the outside world answers (Drive, the vendors' APIs, SMTP) is not
      code of the repository: it is an input, the [World]. *)

From Stdlib Require Import NArith ZArith Ascii.
From stdpp Require Import base tactics option list strings gmap.

Set Default Proof Using "Type".
Set Warnings "-register-all".
Open Scope N_scope.

(** ** JavaScript strings *)

(** An ASCII literal of the source as a JavaScript string. *)
Fixpoint js (s : string) : list N :=
  match s with
  | EmptyString => []
  | String a rest => N_of_ascii a :: js rest
  end.

(** ECMAScript [WhiteSpace] and [LineTerminator] code points: what
    [String.prototype.trim] removes. *)
Definition isWhiteSpace (c : N) : bool :=
  match c with
  | 9 | 10 | 11 | 12 | 13 | 32 | 160 | 5760
  | 8232 | 8233 | 8239 | 8287 | 12288 | 65279 => true
  | _ => (8192 <=? c) && (c <=? 8202)
  end.

Fixpoint trimStart (s : list N) : list N :=
  match s with
  | c :: rest => if isWhiteSpace c then trimStart rest else s
  | [] => []
  end.

Definition trimEnd (s : list N) : list N := rev (trimStart (rev s)).

Definition trim (s : list N) : list N := trimEnd (trimStart s).

(** [s === ''] *)
Definition isEmptyString (s : list N) : bool :=
  match s with [] => true | _ :: _ => false end.

(** ASCII lower-casing of one code unit: how a regular expression with the
    [i] flag (and without [u]) compares an ASCII pattern character. *)
Definition asciiLower (c : N) : N :=
  if (65 <=? c) && (c <=? 90) then c + 32 else c.

(** [name.replace(/<suffix>$/i, '')] for a lower-case ASCII [suffix]. *)
Definition stripSuffixIgnoreCase (suffix name : list N) : list N :=
  let n := (length name - length suffix)%nat in
  if bool_decide (length suffix <= length name)%nat
     && bool_decide (map asciiLower (drop n name) = suffix)
  then take n name
  else name.

(** ** JSON values, as [JSON.parse] returns them *)

Inductive JValue : Type :=
| JNull
| JBool (b : bool)
| JNumber (n : Z)
| JString (s : list N)
| JArray (items : list JValue)
| JObject (fields : list (list N * JValue)).

(** Own property of a parsed object; a repeated key keeps its last value.
    [None] is [undefined]. *)
Fixpoint lastBinding (key : list N) (fields : list (list N * JValue))
  : option JValue :=
  match fields with
  | [] => None
  | (k, v) :: rest =>
      match lastBinding key rest with
      | Some v' => Some v'
      | None => if bool_decide (k = key) then Some v else None
      end
  end.

(** [v.key] for a key that no prototype defines ([title], [tags], ...):
    on [null] the access itself throws a [TypeError], which is the [None]
    of the outer option. *)
Definition getProp (v : JValue) (key : list N) : option (option JValue) :=
  match v with
  | JNull => None
  | JObject fields => Some (lastBinding key fields)
  | JBool _ | JNumber _ | JString _ | JArray _ => Some None
  end.

(** [!!v] *)
Definition truthy (v : option JValue) : bool :=
  match v with
  | None | Some JNull => false
  | Some (JBool b) => b
  | Some (JNumber n) => negb (n =? 0)%Z
  | Some (JString s) => negb (isEmptyString s)
  | Some (JArray _) | Some (JObject _) => true
  end.

(** [typeof v === 'object'] *)
Definition typeofObject (v : option JValue) : bool :=
  match v with
  | Some JNull | Some (JArray _) | Some (JObject _) => true
  | _ => false
  end.

(** ** Data model ([src/types/index.ts]) *)

Inductive Platform : Type := YouTube | TikTok | Instagram | X.

Global Instance Platform_eq_dec : EqDecision Platform.
Proof. solve_decision. Defined.

(** The fixed order in which the driver publishes. *)
Definition platformOrder : list Platform := [YouTube; TikTok; Instagram; X].


Record UploadStatus : Type := mkUploadStatus {
  youtube : bool;
  tiktok : bool;
  instagram : bool;
  x : bool
}.

Definition flag (p : Platform) (s : UploadStatus) : bool :=
  match p with
  | YouTube => youtube s
  | TikTok => tiktok s
  | Instagram => instagram s
  | X => x s
  end.

(** [upload_status.<p> = true] *)
Definition markDone (p : Platform) (s : UploadStatus) : UploadStatus :=
  match p with
  | YouTube => mkUploadStatus true (tiktok s) (instagram s) (x s)
  | TikTok => mkUploadStatus (youtube s) true (instagram s) (x s)
  | Instagram => mkUploadStatus (youtube s) (tiktok s) true (x s)
  | X => mkUploadStatus (youtube s) (tiktok s) (instagram s) true
  end.

Record PostMetadata : Type := mkPostMetadata {
  title : list N;
  description : list N;
  tags : list JValue;
  upload_status : UploadStatus
}.

Record UploadResult : Type := mkUploadResult {
  platform : Platform;
  success : bool;
  skipped : bool;
  error : option (list N)
}.

Record FilePair : Type := mkFilePair {
  videoFileId : list N;
  jsonFileId : list N;
  videoFileName : list N;
  jsonFileName : list N;
  metadata : PostMetadata
}.

Record BatchResult : Type := mkBatchResult {
  filePair : FilePair;
  results : list UploadResult;
  allSuccess : bool;
  batchIsXEnabled : bool
}.

Record DriveConfig : Type := mkDriveConfig {
  credentialsJson : list N;
  pendingFolderId : list N;
  doneFolderId : list N
}.

Record YouTubeConfig : Type := mkYouTubeConfig {
  ytClientId : list N;
  ytClientSecret : list N;
  ytRefreshToken : list N
}.

Record TikTokConfig : Type := mkTikTokConfig {
  ttClientKey : list N;
  ttClientSecret : list N;
  ttRefreshToken : list N
}.

Record InstagramConfig : Type := mkInstagramConfig {
  igAccessToken : list N;
  igAccountId : list N
}.

Record XConfig : Type := mkXConfig {
  apiKey : list N;
  apiSecret : list N;
  accessToken : list N;
  accessTokenSecret : list N
}.

Record MailConfig : Type := mkMailConfig {
  mailUser : list N;
  mailPass : list N;
  mailTo : list N
}.

Record AppConfig : Type := mkAppConfig {
  drive : DriveConfig;
  youtubeConfig : YouTubeConfig;
  tiktokConfig : TikTokConfig;
  instagramConfig : InstagramConfig;
  xConfig : option XConfig;
  mail : MailConfig;
  isXEnabled : bool
}.

(** ** Exceptions and the outside world *)

(** A thrown value: an [Error] with its [message], or anything else, kept
    as what [String(error)] makes of it. *)
Inductive Thrown : Type :=
| ErrorObject (message : list N)
| NonError (text : list N).

(** [error instanceof Error ? error.message : String(error)] *)
Definition errorMessage (e : Thrown) : list N :=
  match e with
  | ErrorObject message => message
  | NonError text => text
  end.

(** The answer of an external call that has no result the driver reads. *)
Inductive Response : Type :=
| Returns
| Raises (e : Thrown).

(** The places where processing one file pair talks to the outside. The
    body of a publisher's [try] block is vendor traffic from its first
    statement to its [return]; it either reaches the [return] or throws,
    and that is all the rest of the program can see of it. *)
Inductive Site : Type :=
| AtDownload
| AtYouTubeInsert
| AtTikTokPost
| AtInstagramPost
| AtXUploadMedia
| AtXTweet
| AtUpdateJson (after : Platform)
| AtShareLink
| AtMoveVideo
| AtMoveJson
| AtSendMail.

Record DriveFile : Type := mkDriveFile {
  fileId : list N;
  fileName : list N
}.

Record World : Type := mkWorld {
  (** [process.env] *)
  env : gmap string (list N);
  (** [drive.files.list] for the videos and for the JSON files *)
  mp4Listing : Thrown + list DriveFile;
  jsonListing : Thrown + list DriveFile;
  (** [drive.files.get] followed by [JSON.parse], per file id *)
  jsonBody : list N -> Thrown + JValue;
  (** the external calls of the n-th iteration of the item loop *)
  respond : nat -> Site -> Response
}.

(** ** Observable events *)

Inductive Level : Type := INFO | WARN | ERROR | SUCCESS.

(** One constructor per [logger] call of the source; the Japanese text of
    a line is not modelled, its arguments are. *)
Inductive LogMsg : Type :=
| MsgBanner
| MsgBatchStart
| MsgPhase1
| MsgEnvLoadStart
| MsgXKeysPartial
| MsgXEnabled
| MsgXDisabled
| MsgEnvLoadDone
| MsgPhase2
| MsgSearching
| MsgListed (mp4 json : nat)
| MsgPairFound (video json : list N)
| MsgNoPair (video : list N)
| MsgNoPending
| MsgDetected (count : nat)
| MsgItemStart (video : list N)
| MsgItemTitle (t : list N)
| MsgDownloading (video : list N)
| MsgDownloaded (video : list N)
| MsgPhase3
| MsgSkipAlreadyDone (p : Platform)
| MsgXSkipDisabled
| MsgUploadFailed (p : Platform) (e : Thrown)
| MsgJsonStatusUpdated (json : list N)
| MsgPhase4
| MsgAllPostedMoving
| MsgPartialFailureKept
| MsgMoved (video json : list N)
| MsgSummaryHeader
| MsgSummaryLine (r : UploadResult)
| MsgMailPreparing
| MsgMailSent
| MsgMailFailed (e : Thrown)
| MsgItemError (video : list N) (e : Thrown)
| MsgBatchDone
| MsgFatal (e : Thrown).

Inductive Event : Type :=
| Log (level : Level) (m : LogMsg)
(** the driver calls the publisher of a platform / the publisher resolves *)
| PublishCall (p : Platform)
| PublishReturn (r : UploadResult)
(** the [try] block of a publisher starts its vendor traffic *)
| VendorUpload (p : Platform)
| XTweet (text : list N)
(** Drive *)
| DriveList
| DriveRead (json : list N)
| DriveDownload (video : list N)
| StatusWrite (after : Platform) (json : list N) (body : PostMetadata)
| DriveShare (video : list N)
| DriveMove (file from to : list N)
| MoveFilesToDone (video json : list N)
(** mail, temporary files, [process.exit] *)
| SendMail (report : BatchResult)
| CleanupTmp
| Exit (code : nat).

(** ** The monad of the embedding: state, trace, exceptions *)

Section Monad.
Context {St : Type}.

Definition M (A : Type) : Type := St -> list Event * St * (Thrown + A).

Definition ret {A} (a : A) : M A := fun s => ([], s, inr a).

Definition bind {A B} (m : M A) (k : A -> M B) : M B :=
  fun s =>
    match m s with
    | (t1, s1, inl e) => (t1, s1, inl e)
    | (t1, s1, inr a) =>
        match k a s1 with
        | (t2, s2, r) => (t1 ++ t2, s2, r)
        end
    end.

Definition throw {A} (e : Thrown) : M A := fun s => ([], s, inl e).

(** [try { m } catch (error) { handler error }] *)
Definition try_catch {A} (m : M A) (handler : Thrown -> M A) : M A :=
  fun s =>
    match m s with
    | (t1, s1, inr a) => (t1, s1, inr a)
    | (t1, s1, inl e) =>
        match handler e s1 with
        | (t2, s2, r) => (t1 ++ t2, s2, r)
        end
    end.

Definition emit (ev : Event) : M unit := fun s => ([ev], s, inr tt).

Definition get : M St := fun s => ([], s, inr s).

Definition modify (f : St -> St) : M unit := fun s => ([], f s, inr tt).

(** The outside answers a call. *)
Definition answer (r : Response) : M unit :=
  match r with
  | Returns => ret tt
  | Raises e => throw e
  end.

Definition lift {A} (r : Thrown + A) : M A :=
  match r with
  | inl e => throw e
  | inr a => ret a
  end.
End Monad.

Arguments M : clear implicits.

Notation "v <- m ;; k" := (bind m (fun v => k))
  (at level 100, m at next level, right associativity,
   format "'[v' v  <-  m  ;;  '/' k ']'").
Notation "m ;;; k" := (bind m (fun _ => k))
  (at level 100, right associativity,
   format "'[v' m  ;;;  '/' k ']'").

Definition traceOf {St A} (out : list Event * St * (Thrown + A)) : list Event :=
  out.1.1.
Definition stateOf {St A} (out : list Event * St * (Thrown + A)) : St :=
  out.1.2.
Definition valueOf {St A} (out : list Event * St * (Thrown + A)) : Thrown + A :=
  out.2.

Definition logger {St} (level : Level) (m : LogMsg) : M St unit :=
  emit (Log level m).

(** ** Configuration ([src/config/env.ts]) *)

Section Config.
Context {St : Type}.

(** The message of the error [getRequiredEnv] throws: the fixed Japanese
    text ("[fatal error] required environment variable") up to the opening
    quote, the key, and the rest ("is not set."). *)
Definition missingEnvMessage (key : string) : list N :=
  [91; 33268; 21629; 30340; 12456; 12521; 12540; 93; 32; 24517; 38920;
   29872; 22659; 22793; 25968; 32; 34]
  ++ js key
  ++ [34; 32; 12364; 35373; 23450; 12373; 12428; 12390; 12356; 12414;
      12379; 12435; 12290].

(** [process.env[key]] is a string or [undefined]; [!value] holds of
    [undefined] and of the empty string. *)
Definition getRequiredEnv (e : gmap string (list N)) (key : string)
  : M St (list N) :=
  match e !! key with
  | Some value =>
      if isEmptyString value || isEmptyString (trim value)
      then throw (ErrorObject (missingEnvMessage key))
      else ret (trim value)
  | None => throw (ErrorObject (missingEnvMessage key))
  end.

Definition getOptionalEnv (e : gmap string (list N)) (key : string)
  : option (list N) :=
  match e !! key with
  | Some value =>
      if isEmptyString value || isEmptyString (trim value)
      then None
      else Some (trim value)
  | None => None
  end.

Definition loadDriveConfig (e : gmap string (list N)) : M St DriveConfig :=
  credentialsJson <- getRequiredEnv e "GDRIVE_CREDENTIALS_JSON" ;;
  pendingFolderId <- getRequiredEnv e "GDRIVE_PENDING_FOLDER_ID" ;;
  doneFolderId <- getRequiredEnv e "GDRIVE_DONE_FOLDER_ID" ;;
  ret (mkDriveConfig credentialsJson pendingFolderId doneFolderId).

Definition loadYouTubeConfig (e : gmap string (list N)) : M St YouTubeConfig :=
  clientId <- getRequiredEnv e "YOUTUBE_CLIENT_ID" ;;
  clientSecret <- getRequiredEnv e "YOUTUBE_CLIENT_SECRET" ;;
  refreshToken <- getRequiredEnv e "YOUTUBE_REFRESH_TOKEN" ;;
  ret (mkYouTubeConfig clientId clientSecret refreshToken).

Definition loadTikTokConfig (e : gmap string (list N)) : M St TikTokConfig :=
  clientKey <- getRequiredEnv e "TIKTOK_CLIENT_KEY" ;;
  clientSecret <- getRequiredEnv e "TIKTOK_CLIENT_SECRET" ;;
  refreshToken <- getRequiredEnv e "TIKTOK_REFRESH_TOKEN" ;;
  ret (mkTikTokConfig clientKey clientSecret refreshToken).

Definition loadInstagramConfig (e : gmap string (list N))
  : M St InstagramConfig :=
  accessToken <- getRequiredEnv e "IG_ACCESS_TOKEN" ;;
  accountId <- getRequiredEnv e "IG_ACCOUNT_ID" ;;
  ret (mkInstagramConfig accessToken accountId).

(** A string or [undefined] in a boolean position: [undefined] and the
    empty string are falsy. *)
Definition truthyString (v : option (list N)) : bool :=
  match v with
  | Some (_ :: _) => true
  | _ => false
  end.

Definition loadXConfig (e : gmap string (list N)) : M St (option XConfig) :=
  let apiKey := getOptionalEnv e "X_API_KEY" in
  let apiSecret := getOptionalEnv e "X_API_SECRET" in
  let accessToken := getOptionalEnv e "X_ACCESS_TOKEN" in
  let accessTokenSecret := getOptionalEnv e "X_ACCESS_TOKEN_SECRET" in
  match apiKey, apiSecret, accessToken, accessTokenSecret with
  | Some ((_ :: _) as k), Some ((_ :: _) as s), Some ((_ :: _) as t),
    Some ((_ :: _) as ts) =>
      ret (Some (mkXConfig k s t ts))
  | _, _, _, _ =>
      let partialKeys :=
        filter (fun v => Is_true (truthyString v))
               [apiKey; apiSecret; accessToken; accessTokenSecret] in
      (if bool_decide (0 < length partialKeys)%nat
       then logger WARN MsgXKeysPartial
       else ret tt) ;;;
      ret None
  end.

Definition loadMailConfig (e : gmap string (list N)) : M St MailConfig :=
  user <- getRequiredEnv e "MAIL_USER" ;;
  pass <- getRequiredEnv e "MAIL_PASS" ;;
  to <- getRequiredEnv e "MAIL_TO" ;;
  ret (mkMailConfig user pass to).

Definition loadConfig (e : gmap string (list N)) : M St AppConfig :=
  logger INFO MsgEnvLoadStart ;;;
  drive <- loadDriveConfig e ;;
  youtube <- loadYouTubeConfig e ;;
  tiktok <- loadTikTokConfig e ;;
  instagram <- loadInstagramConfig e ;;
  x <- loadXConfig e ;;
  mail <- loadMailConfig e ;;
  let isXEnabled := bool_decide (x <> None) in
  (if isXEnabled then logger INFO MsgXEnabled
   else logger INFO MsgXDisabled) ;;;
  logger INFO MsgEnvLoadDone ;;;
  ret (mkAppConfig drive youtube tiktok instagram x mail isXEnabled).
End Config.

(** ** Google Drive ([src/services/drive.ts]) *)

Section Drive.
Context {St : Type}.

(** The messages of the four validation errors of [fetchJsonContent]
    ("JSON format error: "title" is invalid." and so on, in Japanese). *)
Definition jsonFormatError : list N :=
  [74; 83; 79; 78; 12501; 12457; 12540; 12510; 12483; 12488; 12456;
   12521; 12540; 58; 32].
Definition isInvalid : list N := [32; 12364; 19981; 27491; 12391; 12377; 12290].
Definition isNotAnArray : list N :=
  [32; 12364; 37197; 21015; 12391; 12399; 12354; 12426; 12414; 12379;
   12435; 12290].
Definition badTitle : Thrown :=
  ErrorObject (jsonFormatError ++ [34] ++ js "title" ++ [34] ++ isInvalid).
Definition badDescription : Thrown :=
  ErrorObject (jsonFormatError ++ [34] ++ js "description" ++ [34] ++ isInvalid).
Definition badTags : Thrown :=
  ErrorObject (jsonFormatError ++ [34] ++ js "tags" ++ [34] ++ isNotAnArray).
Definition badUploadStatus : Thrown :=
  ErrorObject (jsonFormatError ++ [34] ++ js "upload_status" ++ [34] ++ isInvalid).

(** Reading a property of [null] (V8's wording of the [TypeError]). *)
Definition nullAccess (key : string) : Thrown :=
  ErrorObject (js "Cannot read properties of null (reading '" ++ js key
               ++ js "')").

Definition property (data : JValue) (key : string) : M St (option JValue) :=
  match getProp data (js key) with
  | Some v => ret v
  | None => throw (nullAccess key)
  end.

(** [typeof v === 'string'], [Array.isArray(v)] *)
Definition typeofString (v : option JValue) : bool :=
  match v with Some (JString _) => true | _ => false end.
Definition isArray (v : option JValue) : bool :=
  match v with Some (JArray _) => true | _ => false end.

(** The validated record under its TypeScript type [PostMetadata]. The
    source casts and returns the parsed object itself; the program later
    reads [title], [description] and [tags] as they are and the four
    fields of [upload_status] only as conditions, so the record keeps
    the truth value of each of those four. *)
Definition stringOf (v : option JValue) : list N :=
  match v with Some (JString s) => s | _ => [] end.
Definition itemsOf (v : option JValue) : list JValue :=
  match v with Some (JArray items) => items | _ => [] end.
Definition statusField (v : option JValue) (key : string) : bool :=
  match v with
  | Some (JObject fields) => truthy (lastBinding (js key) fields)
  | _ => false
  end.
Definition statusOf (v : option JValue) : UploadStatus :=
  mkUploadStatus (statusField v "youtube") (statusField v "tiktok")
                 (statusField v "instagram") (statusField v "x").

Definition fetchJsonContent (w : World) (fileId : list N)
  : M St PostMetadata :=
  emit (DriveRead fileId) ;;;
  data <- lift (jsonBody w fileId) ;;
  title <- property data "title" ;;
  if negb (truthy title) || negb (typeofString title) then throw badTitle
  else
  description <- property data "description" ;;
  if negb (truthy description) || negb (typeofString description)
  then throw badDescription
  else
  tags <- property data "tags" ;;
  if negb (isArray tags) then throw badTags
  else
  status <- property data "upload_status" ;;
  if negb (truthy status) || negb (typeofObject status)
  then throw badUploadStatus
  else
  ret (mkPostMetadata (stringOf title) (stringOf description)
                      (itemsOf tags) (statusOf status)).

(** The [for] loop of [fetchFilePairs] over the listed videos. *)
Fixpoint pairFiles (w : World) (jsonFiles mp4Files : list DriveFile)
         (filePairs : list FilePair) : M St (list FilePair) :=
  match mp4Files with
  | [] => ret filePairs
  | mp4File :: rest =>
      let baseName := stripSuffixIgnoreCase (js ".mp4") (fileName mp4File) in
      let matchingJson :=
        List.find (fun j => bool_decide
                     (stripSuffixIgnoreCase (js ".json") (fileName j) = baseName))
                  jsonFiles in
      match matchingJson with
      | Some matchingJson =>
          logger INFO (MsgPairFound (fileName mp4File) (fileName matchingJson)) ;;;
          metadata <- fetchJsonContent w (fileId matchingJson) ;;
          pairFiles w jsonFiles rest
            (filePairs ++ [mkFilePair (fileId mp4File) (fileId matchingJson)
                                      (fileName mp4File) (fileName matchingJson)
                                      metadata])
      | None =>
          logger WARN (MsgNoPair (fileName mp4File)) ;;;
          pairFiles w jsonFiles rest filePairs
      end
  end.

Definition fetchFilePairs (w : World) (config : DriveConfig)
  : M St (list FilePair) :=
  logger INFO MsgSearching ;;;
  emit DriveList ;;;
  mp4Files <- lift (mp4Listing w) ;;
  emit DriveList ;;;
  jsonFiles <- lift (jsonListing w) ;;
  logger INFO (MsgListed (length mp4Files) (length jsonFiles)) ;;;
  pairFiles w jsonFiles mp4Files [].

(** [path.join(TMP_DIR, videoFileName)], relative to the working
    directory. *)
Definition localPath (videoFileName : list N) : list N :=
  js "tmp/" ++ videoFileName.

Definition downloadVideo (w : Site -> Response) (config : DriveConfig)
           (filePair : FilePair) : M St (list N) :=
  logger INFO (MsgDownloading (videoFileName filePair)) ;;;
  emit (DriveDownload (videoFileId filePair)) ;;;
  answer (w AtDownload) ;;;
  logger SUCCESS (MsgDownloaded (videoFileName filePair)) ;;;
  ret (localPath (videoFileName filePair)).

(** [after] names the call site: the driver calls [updateJsonStatus] in
    four places, one after each publisher. *)
Definition updateJsonStatus (w : Site -> Response) (after : Platform)
           (config : DriveConfig) (filePair : FilePair)
           (updatedMetadata : PostMetadata) : M St unit :=
  emit (StatusWrite after (jsonFileId filePair) updatedMetadata) ;;;
  answer (w (AtUpdateJson after)) ;;;
  logger INFO (MsgJsonStatusUpdated (jsonFileName filePair)).

Definition moveFilesToDone (w : Site -> Response) (config : DriveConfig)
           (filePair : FilePair) : M St unit :=
  emit (MoveFilesToDone (videoFileId filePair) (jsonFileId filePair)) ;;;
  emit (DriveMove (videoFileId filePair) (pendingFolderId config)
                  (doneFolderId config)) ;;;
  answer (w AtMoveVideo) ;;;
  emit (DriveMove (jsonFileId filePair) (pendingFolderId config)
                  (doneFolderId config)) ;;;
  answer (w AtMoveJson) ;;;
  logger SUCCESS (MsgMoved (videoFileName filePair) (jsonFileName filePair)).

Definition getVideoShareLink (w : Site -> Response) (config : DriveConfig)
           (fileId : list N) : M St (list N) :=
  emit (DriveShare fileId) ;;;
  answer (w AtShareLink) ;;;
  ret (js "https://drive.google.com/uc?export=download&id=" ++ fileId).
End Drive.

(** ** Publishers ([src/services/youtube.ts], [tiktok.ts], [instagram.ts],
       [x.ts]) *)

Section Publishers.
Context {St : Type}.

(** Entry and exit of a publisher, for the trace. *)
Definition called (p : Platform) (body : M St UploadResult)
  : M St UploadResult :=
  emit (PublishCall p) ;;;
  result <- body ;;
  emit (PublishReturn result) ;;;
  ret result.

(** The [catch] block the four publishers share. *)
Definition uploadFailed (p : Platform) (error : Thrown) : M St UploadResult :=
  let errorMessage := errorMessage error in
  logger ERROR (MsgUploadFailed p error) ;;;
  ret (mkUploadResult p false false (Some errorMessage)).

Definition uploadToYouTube (w : Site -> Response) (config : YouTubeConfig)
           (videoPath : list N) (metadata : PostMetadata) : M St UploadResult :=
  called YouTube (
    if youtube (upload_status metadata) then
      logger INFO (MsgSkipAlreadyDone YouTube) ;;;
      ret (mkUploadResult YouTube true true None)
    else
      try_catch
        (emit (VendorUpload YouTube) ;;;
         answer (w AtYouTubeInsert) ;;;
         ret (mkUploadResult YouTube true false None))
        (uploadFailed YouTube)).

Definition uploadToTikTok (w : Site -> Response) (config : TikTokConfig)
           (videoPath : list N) (metadata : PostMetadata) : M St UploadResult :=
  called TikTok (
    if tiktok (upload_status metadata) then
      logger INFO (MsgSkipAlreadyDone TikTok) ;;;
      ret (mkUploadResult TikTok true true None)
    else
      try_catch
        (emit (VendorUpload TikTok) ;;;
         answer (w AtTikTokPost) ;;;
         ret (mkUploadResult TikTok true false None))
        (uploadFailed TikTok)).

Definition uploadToInstagram (w : Site -> Response) (config : InstagramConfig)
           (videoUrl : list N) (metadata : PostMetadata) : M St UploadResult :=
  called Instagram (
    if instagram (upload_status metadata) then
      logger INFO (MsgSkipAlreadyDone Instagram) ;;;
      ret (mkUploadResult Instagram true true None)
    else
      try_catch
        (emit (VendorUpload Instagram) ;;;
         answer (w AtInstagramPost) ;;;
         ret (mkUploadResult Instagram true false None))
        (uploadFailed Instagram)).

(** [`${metadata.title}\n\n${metadata.description}`] *)
Definition tweetText (metadata : PostMetadata) : list N :=
  title metadata ++ [10; 10] ++ description metadata.

(** [tweetText.length > 280 ? tweetText.substring(0, 277) + '...' : tweetText] *)
Definition truncatedText (metadata : PostMetadata) : list N :=
  if bool_decide (280 < length (tweetText metadata))%nat
  then take 277 (tweetText metadata) ++ js "..."
  else tweetText metadata.

Definition uploadToX (w : Site -> Response) (config : option XConfig)
           (isXEnabled : bool) (videoPath : list N) (metadata : PostMetadata)
  : M St UploadResult :=
  called X (
    if negb isXEnabled || negb (bool_decide (is_Some config)) then
      logger INFO MsgXSkipDisabled ;;;
      ret (mkUploadResult X false true None)
    else if x (upload_status metadata) then
      logger INFO (MsgSkipAlreadyDone X) ;;;
      ret (mkUploadResult X true true None)
    else
      try_catch
        (emit (VendorUpload X) ;;;
         answer (w AtXUploadMedia) ;;;
         emit (XTweet (truncatedText metadata)) ;;;
         answer (w AtXTweet) ;;;
         ret (mkUploadResult X true false None))
        (uploadFailed X)).
End Publishers.

(** ** Mail ([src/services/mail.ts]) *)

Definition sendResultEmail {St} (w : Site -> Response) (config : MailConfig)
           (batchResult : BatchResult) : M St unit :=
  try_catch
    (logger INFO MsgMailPreparing ;;;
     emit (SendMail batchResult) ;;;
     answer (w AtSendMail) ;;;
     logger SUCCESS MsgMailSent)
    (fun error => logger ERROR (MsgMailFailed error)).

(** ** The driver ([src/index.ts]) *)

Fixpoint isAllSuccess (results : list UploadResult) (isXEnabled : bool) : bool :=
  match results with
  | [] => true
  | result :: rest =>
      if skipped result then isAllSuccess rest isXEnabled
      else if bool_decide (platform result = X) && negb isXEnabled
           then isAllSuccess rest isXEnabled
      else if negb (success result) then false
      else isAllSuccess rest isXEnabled
  end.

(** The state of processing one file pair is the one [upload_status]
    object of its metadata. [const currentMetadata = { ...filePair.metadata }]
    copies the four fields of the record, so [currentMetadata.upload_status]
    and [filePair.metadata.upload_status] are the same object: an assignment
    through either name changes what both read. *)
Definition currentMetadata (filePair : FilePair) : M UploadStatus PostMetadata :=
  status <- get ;;
  ret (mkPostMetadata (title (metadata filePair)) (description (metadata filePair))
                      (tags (metadata filePair)) status).

Fixpoint logSummary {St} (results : list UploadResult) : M St unit :=
  match results with
  | [] => ret tt
  | r :: rest => logger INFO (MsgSummaryLine r) ;;; logSummary rest
  end.

(** The block that follows each publisher call in [main]:
    [if (result.success && !result.skipped) {
       currentMetadata.upload_status.<p> = true;
       await updateJsonStatus(config.drive, filePair, currentMetadata); }]
    The source writes it out four times, once per platform. *)
Definition recordSuccess (config : AppConfig) (w : Site -> Response)
           (filePair : FilePair) (p : Platform) (result : UploadResult)
  : M UploadStatus unit :=
  if success result && negb (skipped result) then
    modify (markDone p) ;;;
    metadata <- currentMetadata filePair ;;
    updateJsonStatus w p (drive config) filePair metadata
  else ret tt.

(** Phase 3 of [main]: the four uploads, in sequence. *)
Definition uploadPhase (config : AppConfig) (w : Site -> Response)
           (filePair : FilePair) (videoPath : list N)
  : M UploadStatus (list UploadResult) :=
  logger INFO MsgPhase3 ;;;
  let results := [] in
  (* 3-1 *)
  metadata <- currentMetadata filePair ;;
  ytResult <- uploadToYouTube w (youtubeConfig config) videoPath metadata ;;
  let results := results ++ [ytResult] in
  recordSuccess config w filePair YouTube ytResult ;;;
  (* 3-2 *)
  metadata <- currentMetadata filePair ;;
  ttResult <- uploadToTikTok w (tiktokConfig config) videoPath metadata ;;
  let results := results ++ [ttResult] in
  recordSuccess config w filePair TikTok ttResult ;;;
  (* 3-3 *)
  videoUrl <- getVideoShareLink w (drive config) (videoFileId filePair) ;;
  metadata <- currentMetadata filePair ;;
  igResult <- uploadToInstagram w (instagramConfig config) videoUrl metadata ;;
  let results := results ++ [igResult] in
  recordSuccess config w filePair Instagram igResult ;;;
  (* 3-4 *)
  metadata <- currentMetadata filePair ;;
  xResult <- uploadToX w (xConfig config) (isXEnabled config) videoPath metadata ;;
  let results := results ++ [xResult] in
  recordSuccess config w filePair X xResult ;;;
  ret results.

(** Phase 4 of [main]: the verdict, the move, the summary, the mail. *)
Definition afterUploads (config : AppConfig) (w : Site -> Response)
           (filePair : FilePair) (results : list UploadResult)
  : M UploadStatus unit :=
  logger INFO MsgPhase4 ;;;
  let allSuccess := isAllSuccess results (isXEnabled config) in
  metadata <- currentMetadata filePair ;;
  let batchResult :=
    mkBatchResult (mkFilePair (videoFileId filePair) (jsonFileId filePair)
                              (videoFileName filePair) (jsonFileName filePair)
                              metadata)
                  results allSuccess (isXEnabled config) in
  (if allSuccess then
     logger SUCCESS MsgAllPostedMoving ;;;
     moveFilesToDone w (drive config) filePair
   else
     logger WARN MsgPartialFailureKept) ;;;
  logger INFO MsgSummaryHeader ;;;
  logSummary results ;;;
  sendResultEmail w (mail config) batchResult.

(** The body of the [for] loop of [main], for one file pair. *)
Definition processFilePair (config : AppConfig) (w : Site -> Response)
           (filePair : FilePair) : M UploadStatus unit :=
  logger INFO MsgBanner ;;;
  logger INFO (MsgItemStart (videoFileName filePair)) ;;;
  logger INFO (MsgItemTitle (title (metadata filePair))) ;;;
  logger INFO MsgBanner ;;;
  try_catch
    (videoPath <- downloadVideo w (drive config) filePair ;;
     results <- uploadPhase config w filePair videoPath ;;
     afterUploads config w filePair results)
    (fun error => logger ERROR (MsgItemError (videoFileName filePair) error)).

(** A file pair is processed on its own [upload_status] object, the one
    [fetchJsonContent] built for it. *)
Definition onItsStatus {A} (filePair : FilePair) (m : M UploadStatus A)
  : M unit A :=
  fun s =>
    match m (upload_status (metadata filePair)) with
    | (t, _, r) => (t, s, r)
    end.

Fixpoint forEachFilePair (config : AppConfig) (w : World) (index : nat)
         (filePairs : list FilePair) : M unit unit :=
  match filePairs with
  | [] => ret tt
  | filePair :: rest =>
      onItsStatus filePair (processFilePair config (respond w index) filePair) ;;;
      forEachFilePair config w (S index) rest
  end.

(** The [try] block of [main]. *)
Definition batch (w : World) : M unit unit :=
  logger INFO MsgPhase1 ;;;
  config <- loadConfig (env w) ;;
  logger INFO MsgPhase2 ;;;
  filePairs <- fetchFilePairs w (drive config) ;;
  if bool_decide (length filePairs = 0%nat) then
    logger INFO MsgNoPending
  else
    logger INFO (MsgDetected (length filePairs)) ;;;
    forEachFilePair config w 0 filePairs ;;;
    logger INFO MsgBanner ;;;
    logger INFO MsgBatchDone ;;;
    logger INFO MsgBanner.

(** [main]: the trace of the run and the exit code of the process.
    [process.exit(1)] in the [catch] block ends the process there, so the
    [finally] block runs only when the [try] block completes. *)
Definition main (w : World) : list Event * nat :=
  match (logger INFO MsgBanner ;;; logger INFO MsgBatchStart ;;;
         logger INFO MsgBanner ;;; batch w) tt with
  | (t, _, inr _) => (t ++ [CleanupTmp], 0%nat)
  | (t, _, inl error) => (t ++ [Log ERROR (MsgFatal error); Exit 1], 1%nat)
  end.


(** * Vocabulary of the statements *)

(** ** Outcomes *)

Definition ok (p : Platform) : UploadResult := mkUploadResult p true false None.
Definition failed (p : Platform) (detail : list N) : UploadResult :=
  mkUploadResult p false false (Some detail).
Definition skipDone (p : Platform) : UploadResult := mkUploadResult p true true None.
Definition skipDisabled : UploadResult := mkUploadResult X false true None.

(** An outcome that counts against the verdict of [isAllSuccess]. *)
Definition countsAsFailure (isXEnabled : bool) (r : UploadResult) : Prop :=
  skipped r = false /\ ~ (platform r = X /\ isXEnabled = false) /\ success r = false.

(** The publisher of each platform, with the arguments [main] gives it. *)
Definition publisher {St} (p : Platform) (config : AppConfig)
           (w : Site -> Response) (videoPath videoUrl : list N)
           (metadata : PostMetadata) : M St UploadResult :=
  match p with
  | YouTube => uploadToYouTube w (youtubeConfig config) videoPath metadata
  | TikTok => uploadToTikTok w (tiktokConfig config) videoPath metadata
  | Instagram => uploadToInstagram w (instagramConfig config) videoUrl metadata
  | X => uploadToX w (xConfig config) (isXEnabled config) videoPath metadata
  end.

(** The platform is administratively disabled: only X can be, when
    [isXEnabled] is false or its configuration is [null]. *)
Definition disabled (p : Platform) (config : AppConfig) : bool :=
  bool_decide (p = X)
  && (negb (isXEnabled config) || negb (bool_decide (is_Some (xConfig config)))).

(** ** Sample inputs *)

Definition longPost : PostMetadata :=
  mkPostMetadata (replicate 300 65) (js "d") [] (mkUploadStatus false false false false).
Definition allDone : PostMetadata :=
  mkPostMetadata (js "t") (js "d") [] (mkUploadStatus true true true true).
Definition sampleConfig (x : option XConfig) (isXEnabled : bool) : AppConfig :=
  mkAppConfig (mkDriveConfig (js "{}") (js "pending") (js "done"))
              (mkYouTubeConfig (js "id") (js "secret") (js "token"))
              (mkTikTokConfig (js "key") (js "secret") (js "token"))
              (mkInstagramConfig (js "token") (js "account"))
              x (mkMailConfig (js "u") (js "p") (js "to")) isXEnabled.
Definition sampleXConfig : XConfig := mkXConfig (js "k") (js "s") (js "t") (js "ts").

(** ** The credentials of X in the environment *)


(** A variable is supplied when it is present and not blank: it has a
    code unit that is not white space. *)
Definition supplied (e : gmap string (list N)) (key : string) : bool :=
  match e !! key with
  | Some value => negb (forallb isWhiteSpace value)
  | None => false
  end.



(** The required variables, with sample values. *)
Definition requiredEnv : gmap string (list N) :=
  list_to_map
    [("GDRIVE_CREDENTIALS_JSON", js "{}"); ("GDRIVE_PENDING_FOLDER_ID", js "pending");
     ("GDRIVE_DONE_FOLDER_ID", js "done"); ("YOUTUBE_CLIENT_ID", js "yt_id");
     ("YOUTUBE_CLIENT_SECRET", js "yt_secret"); ("YOUTUBE_REFRESH_TOKEN", js "yt_token");
     ("TIKTOK_CLIENT_KEY", js "tt_key"); ("TIKTOK_CLIENT_SECRET", js "tt_secret");
     ("TIKTOK_REFRESH_TOKEN", js "tt_token"); ("IG_ACCESS_TOKEN", js "ig_token");
     ("IG_ACCOUNT_ID", js "ig_account"); ("MAIL_USER", js "user");
     ("MAIL_PASS", js "pass"); ("MAIL_TO", js "to")]%string.


Definition fullXEnv : gmap string (list N) :=
  <["X_API_KEY"%string := js " k "]>
    (<["X_API_SECRET"%string := js "s"]>
       (<["X_ACCESS_TOKEN"%string := js "t"]>
          (<["X_ACCESS_TOKEN_SECRET"%string := js "ts"]> requiredEnv))).

(** ** Reading a trace *)

(** The outcomes the publishers returned, in order. *)
Definition outcomes (t : list Event) : list UploadResult :=
  flat_map (fun ev => match ev with PublishReturn r => [r] | _ => [] end) t.

(** The publishers the driver called, in order. *)
Definition publishCalls (t : list Event) : list Platform :=
  flat_map (fun ev => match ev with PublishCall p => [p] | _ => [] end) t.

(** The platforms whose vendor was contacted, in order. *)
Definition vendorUploads (t : list Event) : list Platform :=
  flat_map (fun ev => match ev with VendorUpload p => [p] | _ => [] end) t.

(** The status writes, each with its call site and the record written. *)
Definition statusWrites (t : list Event) : list (Platform * PostMetadata) :=
  flat_map (fun ev => match ev with
                      | StatusWrite after _ body => [(after, body)]
                      | _ => []
                      end) t.

(** How often [moveFilesToDone] was called, and the files Drive was asked
    to move. *)
Definition finalizeCalls (t : list Event) : nat :=
  length (flat_map (fun ev => match ev with
                              | MoveFilesToDone _ _ => [ev]
                              | _ => []
                              end) t).
Definition driveMoves (t : list Event) : list (list N) :=
  flat_map (fun ev => match ev with DriveMove file _ _ => [file] | _ => [] end) t.

(** Phase 4 was entered: the verdict [allSuccess] was computed. *)
Definition reachedVerdict (t : list Event) : bool :=
  existsb (fun ev => match ev with Log INFO MsgPhase4 => true | _ => false end) t.

(** The item-level error handler ran. *)
Definition itemErrors (t : list Event) : list (list N * Thrown) :=
  flat_map (fun ev => match ev with
                      | Log ERROR (MsgItemError video e) => [(video, e)]
                      | _ => []
                      end) t.

(** ** The steps of phase 3 *)

Definition next (p : Platform) : option Platform :=
  match p with
  | YouTube => Some TikTok
  | TikTok => Some Instagram
  | Instagram => Some X
  | X => None
  end.

Section Steps.
Variables (config : AppConfig) (w : Site -> Response) (filePair : FilePair)
          (videoPath : list N).

(** What [getVideoShareLink] returns for the video of the pair. *)
Definition shareUrl : list N :=
  js "https://drive.google.com/uc?export=download&id=" ++ videoFileId filePair.

(** [currentMetadata] when the status object holds [s]. *)
Definition snapshot (s : UploadStatus) : PostMetadata :=
  mkPostMetadata (title (metadata filePair)) (description (metadata filePair))
                 (tags (metadata filePair)) s.

(** One platform's share of phase 3: for Instagram the share link first,
    then the publisher call and the block that records a success. *)
Definition platformStep (p : Platform) : M UploadStatus UploadResult :=
  match p with
  | Instagram => getVideoShareLink w (drive config) (videoFileId filePair) ;;; ret tt
  | _ => ret tt
  end ;;;
  metadata <- currentMetadata filePair ;;
  result <- publisher p config w videoPath shareUrl metadata ;;
  recordSuccess config w filePair p result ;;;
  ret result.

(** The ways a step can go. *)
Inductive StepCase : Type :=
| ShareRaised (e : Thrown)
| SkipDisabled
| SkipDone
| VendorRaised (tweeted : bool) (e : Thrown)
| Committed
| CommitRaised (e : Thrown).

Definition prelude (p : Platform) : list Event :=
  match p with
  | Instagram => [DriveShare (videoFileId filePair)]
  | _ => []
  end.

Definition vendorTrace (p : Platform) (s : UploadStatus) (tweeted : bool)
  : list Event :=
  VendorUpload p ::
    match p with
    | X => if tweeted then [XTweet (truncatedText (snapshot s))] else []
    | _ => []
    end.

(** The trace, the final state and the result of a step, case by case. *)
Definition stepOutput (p : Platform) (s : UploadStatus) (c : StepCase)
  : list Event * UploadStatus * (Thrown + UploadResult) :=
  match c with
  | ShareRaised e => ([DriveShare (videoFileId filePair)], s, inl e)
  | SkipDisabled =>
      (prelude p ++ [PublishCall p; Log INFO MsgXSkipDisabled;
                     PublishReturn skipDisabled],
       s, inr skipDisabled)
  | SkipDone =>
      (prelude p ++ [PublishCall p; Log INFO (MsgSkipAlreadyDone p);
                     PublishReturn (skipDone p)],
       s, inr (skipDone p))
  | VendorRaised tweeted e =>
      (prelude p ++ [PublishCall p] ++ vendorTrace p s tweeted
         ++ [Log ERROR (MsgUploadFailed p e);
             PublishReturn (failed p (errorMessage e))],
       s, inr (failed p (errorMessage e)))
  | Committed =>
      (prelude p ++ [PublishCall p] ++ vendorTrace p s true
         ++ [PublishReturn (ok p);
             StatusWrite p (jsonFileId filePair) (snapshot (markDone p s));
             Log INFO (MsgJsonStatusUpdated (jsonFileName filePair))],
       markDone p s, inr (ok p))
  | CommitRaised e =>
      (prelude p ++ [PublishCall p] ++ vendorTrace p s true
         ++ [PublishReturn (ok p);
             StatusWrite p (jsonFileId filePair) (snapshot (markDone p s))],
       markDone p s, inl e)
  end.

(** What the vendor of a platform answers to the [try] block: the first
    answer that is not [Returns], with whether the tweet was sent. *)
Definition vendorAnswer (p : Platform) : bool * Response :=
  match p with
  | YouTube => (false, w AtYouTubeInsert)
  | TikTok => (false, w AtTikTokPost)
  | Instagram => (false, w AtInstagramPost)
  | X => match w AtXUploadMedia with
         | Returns => (true, w AtXTweet)
         | Raises e => (false, Raises e)
         end
  end.

(** When each case applies. *)
Definition caseHolds (p : Platform) (s : UploadStatus) (c : StepCase) : Prop :=
  match c with
  | ShareRaised e => p = Instagram /\ w AtShareLink = Raises e
  | SkipDisabled =>
      (p = Instagram -> w AtShareLink = Returns)
      /\ p = X /\ disabled p config = true
  | SkipDone =>
      (p = Instagram -> w AtShareLink = Returns)
      /\ disabled p config = false /\ flag p s = true
  | VendorRaised tweeted e =>
      (p = Instagram -> w AtShareLink = Returns)
      /\ disabled p config = false /\ flag p s = false
      /\ vendorAnswer p = (tweeted, Raises e)
  | Committed =>
      (p = Instagram -> w AtShareLink = Returns)
      /\ disabled p config = false /\ flag p s = false
      /\ snd (vendorAnswer p) = Returns
      /\ w (AtUpdateJson p) = Returns
  | CommitRaised e =>
      (p = Instagram -> w AtShareLink = Returns)
      /\ disabled p config = false /\ flag p s = false
      /\ snd (vendorAnswer p) = Returns
      /\ w (AtUpdateJson p) = Raises e
  end.

(** Phase 3 as four steps. *)
Definition fourSteps : M UploadStatus (list UploadResult) :=
  logger INFO MsgPhase3 ;;;
  ytResult <- platformStep YouTube ;;
  ttResult <- platformStep TikTok ;;
  igResult <- platformStep Instagram ;;
  xResult <- platformStep X ;;
  ret [ytResult; ttResult; igResult; xResult].
End Steps.

(** ** Sample runs *)

Definition freshPair : FilePair :=
  mkFilePair (js "video-1") (js "json-1") (js "clip.mp4") (js "clip.json")
             (mkPostMetadata (js "title") (js "description") []
                             (mkUploadStatus false false false false)).

Definition donePair : FilePair :=
  mkFilePair (js "video-2") (js "json-2") (js "old.mp4") (js "old.json") allDone.

(** Every call returns, except that TikTok's API raises. *)
Definition tiktokDown : Site -> Response :=
  fun site =>
    match site with
    | AtTikTokPost => Raises (ErrorObject (js "rate limit"))
    | _ => Returns
    end.

Definition allReturn : Site -> Response := fun _ => Returns.

(** ** Cutting a trace at an event *)




(** The reports handed to the mailer. *)
Definition reports (t : list Event) : list BatchResult :=
  flat_map (fun ev => match ev with SendMail report => [report] | _ => [] end) t.

(** ** The batch *)

(** The file pairs whose processing began, by video file name, and the
    downloads asked of Drive. *)
Definition itemStarts (t : list Event) : list (list N) :=
  flat_map (fun ev => match ev with
                      | Log INFO (MsgItemStart video) => [video]
                      | _ => []
                      end) t.

(** A parsed metadata record that passes the checks of [fetchJsonContent]:
    an object whose [title] and [description] are non-empty strings, whose
    [tags] is an array and whose [upload_status] is an object (or an
    array, which [typeof] also calls an object). *)
Definition nonEmptyString (v : option JValue) : bool :=
  match v with
  | Some (JString (_ :: _)) => true
  | _ => false
  end.
Definition objectOrArray (v : option JValue) : bool :=
  match v with
  | Some (JObject _) | Some (JArray _) => true
  | _ => false
  end.

(** The video of the listing has a JSON file of the same base name. *)
Definition matchingJson (jsonFiles : list DriveFile) (mp4File : DriveFile)
  : option DriveFile :=
  List.find (fun j => bool_decide
               (stripSuffixIgnoreCase (js ".json") (fileName j)
                = stripSuffixIgnoreCase (js ".mp4") (fileName mp4File)))
            jsonFiles.

(** Two pairs wait in the pending folder; the metadata of the first has no
    [title], the metadata of the second is complete. *)
Definition statusJson : JValue :=
  JObject [(js "youtube", JBool false); (js "tiktok", JBool false);
           (js "instagram", JBool false); (js "x", JBool false)].
Definition untitledJson : JValue :=
  JObject [(js "description", JString (js "first"));
           (js "tags", JArray []); (js "upload_status", statusJson)].
Definition completeJson : JValue :=
  JObject [(js "title", JString (js "second"));
           (js "description", JString (js "second video"));
           (js "tags", JArray [JString (js "tag")]);
           (js "upload_status", statusJson)].

Definition twoPairsWorld : World :=
  mkWorld requiredEnv
          (inr [mkDriveFile (js "v1") (js "first.mp4");
                mkDriveFile (js "v2") (js "second.mp4")])
          (inr [mkDriveFile (js "j1") (js "first.json");
                mkDriveFile (js "j2") (js "second.json")])
          (fun id => if bool_decide (id = js "j1") then inr untitledJson
                     else inr completeJson)
          (fun _ _ => Returns).

(** The same folder with only the second pair. *)
Definition secondPairWorld : World :=
  mkWorld requiredEnv
          (inr [mkDriveFile (js "v2") (js "second.mp4")])
          (inr [mkDriveFile (js "j2") (js "second.json")])
          (fun _ => inr completeJson)
          (fun _ _ => Returns).





(** * Vocabulary for the rest of the program *)

(** ** The required variables of the environment *)

(** The variables [loadConfig] requires, in the order it reads them. *)
Definition requiredKeys : list string :=
  ["GDRIVE_CREDENTIALS_JSON"; "GDRIVE_PENDING_FOLDER_ID"; "GDRIVE_DONE_FOLDER_ID";
   "YOUTUBE_CLIENT_ID"; "YOUTUBE_CLIENT_SECRET"; "YOUTUBE_REFRESH_TOKEN";
   "TIKTOK_CLIENT_KEY"; "TIKTOK_CLIENT_SECRET"; "TIKTOK_REFRESH_TOKEN";
   "IG_ACCESS_TOKEN"; "IG_ACCOUNT_ID";
   "MAIL_USER"; "MAIL_PASS"; "MAIL_TO"]%string.

(** The first required variable that is absent or blank. *)
Definition firstMissing (e : gmap string (list N)) : option string :=
  List.find (fun key => negb (supplied e key)) requiredKeys.

(** The value of a variable as the configuration holds it. *)
Definition trimmed (e : gmap string (list N)) (key : string) : list N :=
  trim (default [] (e !! key)).

(** The first and the last code unit of a string are not white space. *)
Definition noOuterSpace (v : list N) : Prop :=
  (forall c rest, v = c :: rest -> isWhiteSpace c = false)
  /\ (forall c front, v = front ++ [c] -> isWhiteSpace c = false).

(** The configuration [loadConfig] builds of an environment and of the
    credentials of X. *)
Definition configOf (e : gmap string (list N)) (x : option XConfig) : AppConfig :=
  mkAppConfig
    (mkDriveConfig (trimmed e "GDRIVE_CREDENTIALS_JSON")
                   (trimmed e "GDRIVE_PENDING_FOLDER_ID")
                   (trimmed e "GDRIVE_DONE_FOLDER_ID"))
    (mkYouTubeConfig (trimmed e "YOUTUBE_CLIENT_ID")
                     (trimmed e "YOUTUBE_CLIENT_SECRET")
                     (trimmed e "YOUTUBE_REFRESH_TOKEN"))
    (mkTikTokConfig (trimmed e "TIKTOK_CLIENT_KEY")
                    (trimmed e "TIKTOK_CLIENT_SECRET")
                    (trimmed e "TIKTOK_REFRESH_TOKEN"))
    (mkInstagramConfig (trimmed e "IG_ACCESS_TOKEN") (trimmed e "IG_ACCOUNT_ID"))
    x
    (mkMailConfig (trimmed e "MAIL_USER") (trimmed e "MAIL_PASS")
                  (trimmed e "MAIL_TO"))
    (bool_decide (x <> None)).

(** ** The verdict *)

(** The outcome does not count against the verdict. *)
Definition passes (isXEnabled : bool) (r : UploadResult) : bool :=
  skipped r || (bool_decide (platform r = X) && negb isXEnabled) || success r.

(** ** Metadata records *)

(** The name of a platform in [upload_status] (the string type [Platform]
    of [src/types/index.ts]). *)
Definition platformKey (p : Platform) : string :=
  match p with
  | YouTube => "youtube"
  | TikTok => "tiktok"
  | Instagram => "instagram"
  | X => "x"
  end.

(** [data.key] of a parsed value that is not [null]. *)
Definition field (data : JValue) (key : string) : option JValue :=
  match data with
  | JObject fields => lastBinding (js key) fields
  | _ => None
  end.

(** ** Reading the trace of the listing *)





(** ** What a computation never does *)

(** Every event of every run of the computation satisfies [R]. *)
Definition always {St A} (R : Event -> Prop) (m : M St A) : Prop :=
  forall s, Forall R (traceOf (m s)).

(** The record is that of the file pair, whatever its [upload_status]. *)
Definition sameContent (filePair : FilePair) (md : PostMetadata) : Prop :=
  title md = title (metadata filePair)
  /\ description md = description (metadata filePair)
  /\ tags md = tags (metadata filePair).

(** An event of the processing of the file pair [item]: what it asks of
    Drive and of the mailer concerns the two files of the pair and nothing
    else. *)
Definition ownEvent (config : AppConfig) (item : FilePair) (ev : Event)
  : Prop :=
  match ev with
  | DriveDownload video | DriveShare video => video = videoFileId item
  | StatusWrite _ json body =>
      json = jsonFileId item /\ sameContent item body
  | DriveMove file from to =>
      (file = videoFileId item \/ file = jsonFileId item)
      /\ from = pendingFolderId (drive config)
      /\ to = doneFolderId (drive config)
  | MoveFilesToDone video json =>
      video = videoFileId item /\ json = jsonFileId item
  | SendMail report =>
      videoFileId (filePair report) = videoFileId item
      /\ jsonFileId (filePair report) = jsonFileId item
      /\ videoFileName (filePair report) = videoFileName item
      /\ jsonFileName (filePair report) = jsonFileName item
      /\ sameContent item (metadata (filePair report))
      /\ batchIsXEnabled report = isXEnabled config
  | Log _ (MsgItemStart video) | Log _ (MsgItemError video _) =>
      video = videoFileName item
  | DriveList | DriveRead _ | CleanupTmp | Exit _ => False
  | Log _ (MsgFatal _) => False
  | _ => True
  end.

(** ** The run of [main] *)

(** An event before the end of the process: not the removal of the
    temporary files, not [process.exit], not the log of a fatal error. *)
Definition running (ev : Event) : Prop :=
  match ev with
  | CleanupTmp | Exit _ | Log _ (MsgFatal _) => False
  | _ => True
  end.

(** The event is a line of the log: nothing outside has been contacted. *)
Definition isLog (ev : Event) : Prop :=
  match ev with
  | Log _ _ => True
  | _ => False
  end.

(** The trace of the [index]-th turn of the item loop, and of the loop from
    that turn on: each file pair on the record read for it in phase 2, with
    the answers of its turn. *)
Definition itemTrace (config : AppConfig) (w : World) (index : nat)
           (filePair : FilePair) : list Event :=
  traceOf (processFilePair config (respond w index) filePair
                           (upload_status (metadata filePair))).
Fixpoint itemsTrace (config : AppConfig) (w : World) (index : nat)
         (filePairs : list FilePair) : list Event :=
  match filePairs with
  | [] => []
  | filePair :: rest =>
      itemTrace config w index filePair ++ itemsTrace config w (S index) rest
  end.

(** The first lines of every run. *)
Definition opening : list Event :=
  [Log INFO MsgBanner; Log INFO MsgBatchStart; Log INFO MsgBanner;
   Log INFO MsgPhase1].

(** The last lines of a run that went through the item loop. *)
Definition closing : list Event :=
  [Log INFO MsgBanner; Log INFO MsgBatchDone; Log INFO MsgBanner].

(** How a run that stops on a fatal error ends. *)
Definition fatalEnd (e : Thrown) : list Event :=
  [Log ERROR (MsgFatal e); Exit 1].

(** ** Sample runs *)

(** The last required variable is missing; the folder is empty. *)
Definition noMailToWorld : World :=
  mkWorld (delete "MAIL_TO"%string requiredEnv) (inr []) (inr [])
          (fun _ => inr JNull) (fun _ _ => Returns).


(** ** One file pair *)

(** The platform is still to be published for a file pair with the status
    [s]: it is not disabled and its flag is not set. *)
Definition pending (config : AppConfig) (s : UploadStatus) (p : Platform)
  : bool :=
  negb (flag p s) && negb (disabled p config).

(** The lines that open the processing of a file pair, the trace of its
    download, and the line of the item-level error handler. *)
Definition itemHeader (item : FilePair) : list Event :=
  [Log INFO MsgBanner; Log INFO (MsgItemStart (videoFileName item));
   Log INFO (MsgItemTitle (title (metadata item))); Log INFO MsgBanner].
Definition downloadTrace (item : FilePair) (r : Response) : list Event :=
  [Log INFO (MsgDownloading (videoFileName item));
   DriveDownload (videoFileId item)]
  ++ match r with
     | Returns => [Log SUCCESS (MsgDownloaded (videoFileName item))]
     | Raises _ => []
     end.
Definition itemFailure (item : FilePair) (e : Thrown) : list Event :=
  [Log ERROR (MsgItemError (videoFileName item) e)].

(** An event of phase 4: not one of the download or of phase 3, and not the
    line of the item-level error handler. *)
Definition phase4Event (ev : Event) : Prop :=
  match ev with
  | PublishCall _ | PublishReturn _ | VendorUpload _ | XTweet _
  | StatusWrite _ _ _ | DriveShare _ | DriveDownload _ => False
  | Log _ (MsgJsonStatusUpdated _) | Log _ (MsgItemError _ _)
  | Log _ (MsgItemStart _) => False
  | _ => True
  end.

(** The share requests of a trace: the videos made readable by anyone. *)
Definition shares (t : list Event) : list (list N) :=
  flat_map (fun ev => match ev with DriveShare video => [video] | _ => [] end) t.

(** What [g] reads off a trace comes from the publishers, the status
    writes and the share request of phase 3 only. *)
Definition ofPhase3 {A} (g : Event -> list A) : Prop :=
  forall ev,
    match ev with
    | PublishCall _ | PublishReturn _ | VendorUpload _ | XTweet _
    | StatusWrite _ _ _ | DriveShare _ => True
    | _ => g ev = []
    end.

(** An event of phase 3. *)
Definition phase3Event (ev : Event) : Prop :=
  match ev with
  | Log _ MsgPhase3 | Log _ (MsgSkipAlreadyDone _) | Log _ MsgXSkipDisabled
  | Log _ (MsgUploadFailed _ _) | Log _ (MsgJsonStatusUpdated _)
  | PublishCall _ | PublishReturn _ | VendorUpload _ | XTweet _
  | StatusWrite _ _ _ | DriveShare _ => True
  | _ => False
  end.

(** What [g] reads off a trace comes from the verdict, the move, the
    summary and the mail of phase 4 only. *)
Definition ofPhase4 {A} (g : Event -> list A) : Prop :=
  forall ev,
    match ev with
    | SendMail _ | DriveMove _ _ _ | MoveFilesToDone _ _
    | Log _ MsgPhase4 | Log _ MsgAllPostedMoving | Log _ MsgPartialFailureKept
    | Log _ (MsgMoved _ _) | Log _ MsgSummaryHeader | Log _ (MsgSummaryLine _)
    | Log _ MsgMailPreparing | Log _ MsgMailSent | Log _ (MsgMailFailed _) =>
        True
    | _ => g ev = []
    end.


(** ** The status that Drive holds *)

(** Reading the trace for the status writes that Drive acknowledged:
    [updateJsonStatus] logs its line only after the update returned. The
    first component is the record of a write that is not yet acknowledged,
    the second the status of the last acknowledged one. *)
Definition acknowledge (st : option PostMetadata * UploadStatus) (ev : Event)
  : option PostMetadata * UploadStatus :=
  match ev with
  | StatusWrite _ _ body => (Some body, st.2)
  | Log INFO (MsgJsonStatusUpdated _) =>
      (None, match st.1 with
             | Some body => upload_status body
             | None => st.2
             end)
  | _ => (None, st.2)
  end.

(** The status of the JSON file on Drive after the trace [t], when it was
    [s] before: that of the last write Drive acknowledged. *)
Definition stored (s : UploadStatus) (t : list Event) : UploadStatus :=
  (foldl acknowledge (None, s) t).2.

(** The lines of the summary, in order. *)
Definition summaryLines (t : list Event) : list UploadResult :=
  flat_map (fun ev => match ev with
                      | Log INFO (MsgSummaryLine r) => [r]
                      | _ => []
                      end) t.

(** ** The report mail ([src/services/mail.ts]) and the summary of the log *)

(** The three literals of [getStatusBadge]. *)
Definition skippedBadge : list N :=
  js "<span style=" ++ [34]
  ++ js "background-color: #6c757d; color: white; padding: 2px 8px; "
  ++ js "border-radius: 4px; font-size: 12px;" ++ [34]
  ++ js ">SKIPPED</span>".
Definition successBadge : list N :=
  js "<span style=" ++ [34]
  ++ js "background-color: #28a745; color: white; padding: 2px 8px; "
  ++ js "border-radius: 4px; font-size: 12px;" ++ [34]
  ++ js ">SUCCESS</span>".
Definition failedBadge : list N :=
  js "<span style=" ++ [34]
  ++ js "background-color: #dc3545; color: white; padding: 2px 8px; "
  ++ js "border-radius: 4px; font-size: 12px;" ++ [34]
  ++ js ">FAILED</span>".

Definition getStatusBadge (result : UploadResult) : list N :=
  if skipped result then skippedBadge
  else if success result then successBadge
  else failedBadge.

(** The headline of [buildEmailHtml]: "all posts succeeded" or "some
    errors". *)
Definition overallStatus (allSuccess : bool) : list N :=
  if allSuccess
  then [9989] ++ js " " ++ [20840; 25237; 31295; 25104; 21151]
  else [9888; 65039] ++ js " "
       ++ [19968; 37096; 12456; 12521; 12540; 12354; 12426].

(** The status in the line of the summary that [main] logs for an outcome:
    [r.skipped ? 'SKIPPED' : r.success ? 'SUCCESS' : 'FAILED']. *)
Definition statusLabel (r : UploadResult) : list N :=
  if skipped r then js "SKIPPED"
  else if success r then js "SUCCESS"
  else js "FAILED".

(** ** X and the mailer *)

(** The posts sent to X, by their text. *)
Definition tweets (t : list Event) : list (list N) :=
  flat_map (fun ev => match ev with XTweet text => [text] | _ => [] end) t.

(** X is to be published for the record: enabled, configured, flag not
    set. *)
Definition live (config : option XConfig) (isXEnabled : bool)
           (metadata : PostMetadata) : bool :=
  isXEnabled && bool_decide (is_Some config)
  && negb (x (upload_status metadata)).

(** The line that closes [sendResultEmail]. *)
Definition mailLine (r : Response) : Event :=
  match r with
  | Returns => Log SUCCESS MsgMailSent
  | Raises e => Log ERROR (MsgMailFailed e)
  end.

(** Every call returns, except that the mailer throws. *)
Definition mailDown : Site -> Response :=
  fun site =>
    match site with
    | AtSendMail => Raises (ErrorObject (js "smtp"))
    | _ => Returns
    end.


(** ** The upload to Instagram, step by step ([src/services/instagram.ts])

    In the driver the [try] block of a publisher is one external call that
    returns or throws. Here the block of [uploadToInstagram] is written
    out: the media container, the loop of status checks, the publication. *)

(** What the Graph API answers: the id of the media container, the
    [status_code] of the status check number [i], counted from 0 ([None]
    is a value that is not a string), and the id of the published media.
    Each of the calls may throw. *)
Record GraphApi : Type := mkGraphApi {
  createContainer : Thrown + list N;
  statusCheck : nat -> Thrown + option (list N);
  publishMedia : Thrown + list N
}.

(** What the block does that can be seen from outside: its requests to the
    Graph API, its waits and the log line of each status check. Its other
    log lines are not modelled. *)
Inductive GraphEvent : Type :=
| CreateContainer (videoUrl caption : list N)
| Sleep (ms : N)
| StatusRequest (containerId : list N)
(** the log line of a check: its number, from 1, and the status read *)
| StatusLine (check : nat) (statusCode : option (list N))
| PublishMedia (containerId : list N).

Definition STATUS_CHECK_INTERVAL : N := 5000.
Definition MAX_STATUS_CHECKS : nat := 60.

(** The two errors the block throws by itself ("an error occurred while
    the media container was processed", "the processing of the media
    container timed out"). *)
Definition containerError : Thrown :=
  ErrorObject (js "Instagram: "
               ++ [12513; 12487; 12451; 12450; 12467; 12531; 12486; 12490;
                   12398; 20966; 29702; 20013; 12395; 12456; 12521; 12540;
                   12364; 30330; 29983; 12375; 12414; 12375; 12383; 12290]).
Definition containerTimeout : Thrown :=
  ErrorObject (js "Instagram: "
               ++ [12513; 12487; 12451; 12450; 12467; 12531; 12486; 12490;
                   12398; 20966; 29702; 12364; 12479; 12452; 12512; 12450;
                   12454; 12488; 12375; 12414; 12375; 12383; 12290]).

(** [for (let i = 0; i < MAX_STATUS_CHECKS; i++)] from the check [i] on,
    with [remaining = MAX_STATUS_CHECKS - i]: the trace of the loop, and
    either [isReady] when the loop is left or the error thrown inside it. *)
Fixpoint awaitContainer (api : GraphApi) (containerId : list N)
         (i remaining : nat) : list GraphEvent * (Thrown + bool) :=
  match remaining with
  | O => ([], inr false)
  | S remaining =>
      match statusCheck api i with
      | inl e =>
          ([Sleep STATUS_CHECK_INTERVAL; StatusRequest containerId], inl e)
      | inr statusCode =>
          let t := [Sleep STATUS_CHECK_INTERVAL; StatusRequest containerId;
                    StatusLine (i + 1) statusCode] in
          if bool_decide (statusCode = Some (js "FINISHED")) then (t, inr true)
          else if bool_decide (statusCode = Some (js "ERROR"))
          then (t, inl containerError)
          else
            match awaitContainer api containerId (S i) remaining with
            | (t', r) => (t ++ t', r)
            end
      end
  end.

(** The [try] block of [uploadToInstagram]. *)
Definition publishReel (api : GraphApi) (config : InstagramConfig)
           (videoUrl : list N) (metadata : PostMetadata)
  : list GraphEvent * (Thrown + unit) :=
  let caption := title metadata ++ [10; 10] ++ description metadata in
  match createContainer api with
  | inl e => ([CreateContainer videoUrl caption], inl e)
  | inr containerId =>
      match awaitContainer api containerId 0 MAX_STATUS_CHECKS with
      | (t, inl e) => (CreateContainer videoUrl caption :: t, inl e)
      | (t, inr false) =>
          (CreateContainer videoUrl caption :: t, inl containerTimeout)
      | (t, inr true) =>
          (CreateContainer videoUrl caption :: t ++ [PublishMedia containerId],
           match publishMedia api with
           | inl e => inl e
           | inr _ => inr tt
           end)
      end
  end.

(** Reading a trace of the block. *)
Definition statusRequests (t : list GraphEvent) : nat :=
  length (flat_map (fun ev => match ev with
                              | StatusRequest _ => [tt]
                              | _ => []
                              end) t).
Definition waited (t : list GraphEvent) : N :=
  foldr N.add 0 (flat_map (fun ev => match ev with
                                     | Sleep ms => [ms]
                                     | _ => []
                                     end) t).
Definition publications (t : list GraphEvent) : list (list N) :=
  flat_map (fun ev => match ev with PublishMedia c => [c] | _ => [] end) t.
Definition containers (t : list GraphEvent) : list (list N * list N) :=
  flat_map (fun ev => match ev with
                      | CreateContainer url caption => [(url, caption)]
                      | _ => []
                      end) t.

(** The status check returned a status that lets the loop go on: neither
    [FINISHED] nor [ERROR]. *)
Definition goesOn (answer : Thrown + option (list N)) : bool :=
  match answer with
  | inr statusCode =>
      negb (bool_decide (statusCode = Some (js "FINISHED")))
      && negb (bool_decide (statusCode = Some (js "ERROR")))
  | inl _ => false
  end.

(** The container is reported as finished at the check [i], and not
    before. *)
Definition finishedAt (api : GraphApi) (i : nat) : Prop :=
  statusCheck api i = inr (Some (js "FINISHED"))
  /\ forall j, (j < i)%nat -> goesOn (statusCheck api j) = true.

(** An API whose container is finished at the third check, and one whose
    container never finishes. *)
Definition thirdCheckApi : GraphApi :=
  mkGraphApi (inr (js "c1"))
             (fun i => if bool_decide (i = 2%nat)
                       then inr (Some (js "FINISHED"))
                       else inr (Some (js "IN_PROGRESS")))
             (inr (js "m1")).
Definition neverReadyApi : GraphApi :=
  mkGraphApi (inr (js "c1")) (fun _ => inr (Some (js "IN_PROGRESS")))
             (inr (js "m1")).

(** * Properties *)

(** The four publishers and what they are built from. *)
Create HintDb publishers discriminated.
#[global] Hint Unfold publisher uploadToYouTube uploadToTikTok uploadToInstagram
  uploadToX called uploadFailed : publishers.

(** Case analysis on the next answer of the outside world. *)
Ltac case_response :=
  match goal with
  | |- context [answer ?r] => destruct r eqn:?
  | |- context [match ?r with Returns => _ | Raises _ => _ end] =>
      destruct r eqn:?
  end.

(** Run a computation of the embedding as far as the answers allow. *)
Ltac run := cbn; repeat (case_response; cbn).

(** String literals stay literals under [cbn] and [simpl]. *)
Arguments js : simpl never.

(** ** Overall success *)

Lemma isAllSuccess_false results isXEnabled :
  isAllSuccess results isXEnabled = false <->
  exists r, r ∈ results /\ countsAsFailure isXEnabled r.
Proof.
  unfold countsAsFailure. induction results as [|r rest IH]; simpl.
  - split; [discriminate | intros (r & Hr & _); inversion Hr].
  - destruct (skipped r) eqn:Hsk.
    { rewrite IH. split.
      - intros (r' & Hin & H). exists r'. split; [by right | done].
      - intros (r' & Hin & H). apply elem_of_cons in Hin as [-> | Hin].
        + destruct H as [H _]. congruence.
        + by exists r'. }
    destruct (bool_decide (platform r = X) && negb isXEnabled) eqn:Hx.
    { apply andb_true_iff in Hx as [Hp Hen%negb_true_iff].
      apply bool_decide_eq_true in Hp. rewrite IH. split.
      - intros (r' & Hin & H). exists r'. split; [by right | done].
      - intros (r' & Hin & H). apply elem_of_cons in Hin as [-> | Hin].
        + destruct H as (_ & H & _). by destruct H.
        + by exists r'. }
    destruct (success r) eqn:Hs; simpl.
    { rewrite IH. split.
      - intros (r' & Hin & H). exists r'. split; [by right | done].
      - intros (r' & Hin & H). apply elem_of_cons in Hin as [-> | Hin].
        + destruct H as (_ & _ & H). congruence.
        + by exists r'. }
    split; [intros _ | done]. exists r. split; [by left |].
    repeat split; try done. intros [Hp Hen]. rewrite Hen in Hx.
    rewrite bool_decide_eq_true_2 in Hx by done. discriminate.
Qed.

(** C1. [isAllSuccess] returns [false] exactly when some outcome of the list
    is not skipped, is not an X outcome while X is disabled, and has
    [success = false]; in every other case, the empty list and an
    all-skipped list among them, it returns [true]. The four examples of the
    specification follow. *)
Theorem isAllSuccess_spec :
  (forall results isXEnabled,
      isAllSuccess results isXEnabled = false <->
      exists r, r ∈ results /\ skipped r = false
                /\ ~ (platform r = X /\ isXEnabled = false)
                /\ success r = false)
  /\ (forall results isXEnabled,
         isAllSuccess results isXEnabled = true <->
         ~ exists r, r ∈ results /\ skipped r = false
                     /\ ~ (platform r = X /\ isXEnabled = false)
                     /\ success r = false)
  /\ (forall isXEnabled, isAllSuccess [] isXEnabled = true)
  /\ (forall results isXEnabled,
         Forall (fun r => skipped r = true) results ->
         isAllSuccess results isXEnabled = true)
  /\ isAllSuccess [ok YouTube; ok TikTok; ok Instagram; skipDisabled] false = true
  /\ (forall detail,
         isAllSuccess [ok YouTube; failed TikTok detail; ok Instagram; skipDisabled]
                      false = false)
  /\ (forall isXEnabled,
         isAllSuccess [skipDone YouTube; skipDone TikTok; skipDone Instagram;
                       skipDisabled] isXEnabled = true)
  /\ (forall detail,
         isAllSuccess [ok YouTube; ok TikTok; ok Instagram; failed X detail]
                      true = false).
Proof.
  split_and!; try done.
  - apply isAllSuccess_false.
  - intros results isXEnabled.
    pose proof (isAllSuccess_false results isXEnabled) as H.
    unfold countsAsFailure in H.
    destruct (isAllSuccess results isXEnabled); split; try done.
    + intros _ Hex. apply H in Hex. discriminate.
    + intros Hn. destruct Hn. by apply H.
  - intros results isXEnabled Hall. induction Hall as [|r rest Hr _ IH]; [done|].
    simpl. by rewrite Hr.
Qed.

(** ** The text posted to X *)

Lemma XTweet_in_uploadToX {St} w config isXEnabled videoPath metadata (s : St) text :
  XTweet text ∈ traceOf (uploadToX w config isXEnabled videoPath metadata s) ->
  text = truncatedText metadata.
Proof.
  unfold uploadToX, called, uploadFailed, try_catch, bind, emit, logger, ret,
    answer, throw, traceOf.
  destruct (negb isXEnabled || negb (bool_decide (is_Some config)));
    [|destruct (x (upload_status metadata));
      [|destruct (w AtXUploadMedia); [destruct (w AtXTweet)|]]];
    simpl; intros H;
    repeat (apply elem_of_cons in H as [H | H]; [by inversion H|]);
    by inversion H.
Qed.

(** C10. The text posted to X is [title + "\n\n" + description] (two line
    feeds, code unit 10) when that has at most 280 code units, and otherwise its first 277 code units
    followed by ["..."]; it never has more than 280. *)
Theorem truncatedText_spec (metadata : PostMetadata) :
  let text := title metadata ++ [10; 10] ++ description metadata in
  ((length text <= 280)%nat -> truncatedText metadata = text)
  /\ ((280 < length text)%nat ->
      truncatedText metadata = take 277 text ++ js "..."
      /\ length (take 277 text) = 277%nat)
  /\ (length (truncatedText metadata) <= 280)%nat
  /\ (forall St w config isXEnabled videoPath (s : St) posted,
         XTweet posted ∈
           traceOf (uploadToX w config isXEnabled videoPath metadata s) ->
         posted = truncatedText metadata).
Proof.
  intros text.
  assert (Hunfold : truncatedText metadata =
                    if bool_decide (280 < length text)%nat
                    then take 277 text ++ js "..." else text) by done.
  split_and!.
  - intros H. rewrite Hunfold. clearbody text.
    by rewrite bool_decide_eq_false_2 by lia.
  - intros H. rewrite Hunfold. clearbody text.
    rewrite bool_decide_eq_true_2 by lia.
    split; [done|]. rewrite length_take. apply Nat.min_l. lia.
  - rewrite Hunfold. clearbody text. case_bool_decide as H; [|lia].
    rewrite length_app, length_take, Nat.min_l by lia. simpl. lia.
  - intros St w config isXEnabled videoPath s posted H.
    by apply XTweet_in_uploadToX in H.
Qed.

Lemma truncatedText_spec_witness :
  truncatedText longPost = replicate 277 65 ++ js "..."
  /\ length (truncatedText longPost) = 280%nat.
Proof.
  destruct (truncatedText_spec longPost) as (_ & Hlong & _).
  destruct Hlong as [Heq _]; [vm_compute; lia|].
  rewrite Heq. split; reflexivity.
Defined.

(** ** Skip outcomes *)

(** C6. A publisher that skips because its platform is already marked done
    returns [{success: true, skipped: true}]; the X publisher that skips
    because X is disabled returns [{success: false, skipped: true}]; and a
    skipped outcome is always one of these two, so the two reasons never
    come with the same value of [success]. *)
Theorem skip_outcomes {St} (p : Platform) (config : AppConfig)
        (w : Site -> Response) (videoPath videoUrl : list N)
        (metadata : PostMetadata) (s : St) :
  let out := publisher p config w videoPath videoUrl metadata s in
  (disabled p config = true ->
   p = X /\ valueOf out = inr (mkUploadResult X false true None))
  /\ (disabled p config = false -> flag p (upload_status metadata) = true ->
      valueOf out = inr (mkUploadResult p true true None))
  /\ (forall r, valueOf out = inr r -> skipped r = true ->
        (success r = false /\ disabled p config = true)
        \/ (success r = true /\ disabled p config = false
            /\ flag p (upload_status metadata) = true)).
Proof.
  unfold disabled, publisher, valueOf.
  destruct metadata as [? ? ? [yt tt ig xx]], config as [? ? ? ? xc ? en].
  destruct p; simpl; split_and!; try done.
  all: try (intros _ ->; reflexivity).
  all: try (intros r; match goal with
                      | |- context [mkUploadStatus] => idtac end;
            destruct yt, tt, ig; run;
            intros [= <-]; try done; intros _; by right).
  - intros Hd. split; [done|]. unfold uploadToX. by rewrite Hd.
  - intros Hd ->. unfold uploadToX. by rewrite Hd.
  - intros r. unfold uploadToX.
    destruct (negb en || negb (bool_decide (is_Some xc))) eqn:Hd.
    { cbn. intros [= <-] _. by left. }
    destruct xx; run; intros [= <-]; try done. intros _. by right.
Qed.

Lemma skip_outcomes_witness :
  valueOf (uploadToX (fun _ => Returns) None false [] allDone tt)
  = inr (mkUploadResult X false true None)
  /\ valueOf (uploadToX (fun _ => Returns) (Some sampleXConfig) true [] allDone tt)
     = inr (mkUploadResult X true true None).
Proof.
  split.
  - apply (skip_outcomes X (sampleConfig None false) (fun _ => Returns)
                         [] [] allDone tt). reflexivity.
  - apply (skip_outcomes X (sampleConfig (Some sampleXConfig) true)
                         (fun _ => Returns) [] [] allDone tt); reflexivity.
Defined.

(** ** The credentials of X are all or nothing *)

Section Trim.
Lemma trimStart_nil l : trimStart l = [] <-> forallb isWhiteSpace l = true.
Proof.
  induction l as [|c l IH]; simpl; [done|].
  destruct (isWhiteSpace c); simpl; [done|]. split; discriminate.
Qed.

Lemma trimStart_all_white l :
  forallb isWhiteSpace (trimStart l) = true -> trimStart l = [].
Proof.
  induction l as [|c l IH]; simpl; [done|].
  destruct (isWhiteSpace c) eqn:Hc; simpl; [done|]. by rewrite Hc.
Qed.

Lemma forallb_rev {A} (f : A -> bool) l : forallb f (rev l) = forallb f l.
Proof.
  induction l as [|a l IH]; simpl; [done|].
  rewrite forallb_app, IH. simpl. destruct (forallb f l), (f a); done.
Qed.

(** A string trims to the empty string exactly when it is blank. *)
Lemma trim_empty v : isEmptyString (trim v) = forallb isWhiteSpace v.
Proof.
  unfold trim, trimEnd.
  destruct (forallb isWhiteSpace v) eqn:Hv.
  - apply trimStart_nil in Hv. by rewrite Hv.
  - destruct (rev (trimStart (rev (trimStart v)))) as [|c l] eqn:Hr; [|done].
    apply (f_equal (@rev N)) in Hr. rewrite rev_involutive in Hr. simpl in Hr.
    apply trimStart_nil in Hr. rewrite forallb_rev in Hr.
    apply trimStart_all_white, trimStart_nil in Hr. congruence.
Qed.

Lemma blank_test v :
  isEmptyString v || isEmptyString (trim v) = forallb isWhiteSpace v.
Proof. rewrite trim_empty. by destruct v. Qed.
End Trim.

Lemma getOptionalEnv_supplied e key :
  getOptionalEnv e key
  = if supplied e key then trim <$> e !! key else None.
Proof.
  unfold getOptionalEnv, supplied. destruct (e !! key) as [v|]; [|done].
  rewrite blank_test. by destruct (forallb isWhiteSpace v).
Qed.

Lemma getOptionalEnv_truthy e key v :
  getOptionalEnv e key = Some v -> exists c rest, v = c :: rest.
Proof.
  unfold getOptionalEnv. destruct (e !! key) as [value|]; [|done].
  destruct (isEmptyString value) eqn:Hv; simpl; [done|].
  destruct (trim value) as [|c rest] eqn:Ht; simpl; [done|].
  intros [= <-]. eauto.
Qed.




Lemma getOptionalEnv_cases e key :
  (supplied e key = false /\ getOptionalEnv e key = None)
  \/ (supplied e key = true
      /\ exists c rest, getOptionalEnv e key = Some (c :: rest)
                        /\ trim <$> e !! key = Some (c :: rest)).
Proof.
  destruct (getOptionalEnv e key) as [v|] eqn:Hg.
  - right. destruct (getOptionalEnv_truthy _ _ _ Hg) as (c & rest & ->).
    rewrite getOptionalEnv_supplied in Hg.
    destruct (supplied e key); [|done]. eauto.
  - left. rewrite getOptionalEnv_supplied in Hg.
    destruct (supplied e key) eqn:Hs; [|done].
    unfold supplied in Hs. by destruct (e !! key).
Qed.









(** ** Phase 3, step by step *)

Lemma step_cases config w filePair videoPath p s :
  exists c, caseHolds config w p s c
            /\ platformStep config w filePair videoPath p s
               = stepOutput filePair p s c.
Proof.
  destruct s as [yt tt ig xx], config as [? ? ? ? xc ? en].
  unfold platformStep, recordSuccess, currentMetadata, getVideoShareLink,
    updateJsonStatus, caseHolds, disabled, vendorAnswer.
  autounfold with publishers.
  destruct p; simpl.
  - destruct yt; run.
    + exists SkipDone. done.
    + exists Committed. done.
    + eexists (CommitRaised _). done.
    + eexists (VendorRaised false _). done.
  - destruct tt; run.
    + exists SkipDone. done.
    + exists Committed. done.
    + eexists (CommitRaised _). done.
    + eexists (VendorRaised false _). done.
  - destruct ig; run.
    + exists SkipDone. done.
    + eexists (ShareRaised _). done.
    + exists Committed. done.
    + eexists (CommitRaised _). done.
    + eexists (VendorRaised false _). done.
    + eexists (ShareRaised _). done.
  - destruct en, xc, xx; run;
      first [ by exists SkipDisabled | by exists SkipDone | by exists Committed
            | by eexists (CommitRaised _) | by eexists (VendorRaised true _)
            | by eexists (VendorRaised false _) ].
Qed.

(** A computation whose inside is not needed: only whether it throws. *)
Ltac blind_call :=
  match goal with
  | |- context [uploadToYouTube ?a ?b ?c ?d ?s] =>
      destruct (uploadToYouTube a b c d s) as [[? ?] [?|?]]
  | |- context [uploadToTikTok ?a ?b ?c ?d ?s] =>
      destruct (uploadToTikTok a b c d s) as [[? ?] [?|?]]
  | |- context [uploadToInstagram ?a ?b ?c ?d ?s] =>
      destruct (uploadToInstagram a b c d s) as [[? ?] [?|?]]
  | |- context [uploadToX ?a ?b ?c ?d ?e ?s] =>
      destruct (uploadToX a b c d e s) as [[? ?] [?|?]]
  | |- context [recordSuccess ?a ?b ?c ?d ?e ?s] =>
      destruct (recordSuccess a b c d e s) as [[? ?] [?|?]]
  end.

(** Unfold the operations of the monad and nothing else. *)
Ltac unfold_monad :=
  cbv beta iota zeta delta
      [bind ret emit get modify logger throw try_catch lift answer].

Lemma uploadPhase_steps config w filePair videoPath s :
  uploadPhase config w filePair videoPath s
  = fourSteps config w filePair videoPath s.
Proof.
  unfold uploadPhase, fourSteps, platformStep, publisher, currentMetadata,
    getVideoShareLink, shareUrl.
  repeat (unfold_monad; first [blind_call | case_response]);
    unfold_monad; simpl; rewrite ?app_nil_r, <- ?app_assoc; simpl;
    rewrite <- ?app_assoc; reflexivity.
Qed.

(** Go through the four steps of phase 3, case by case. *)
Ltac tidy_case :=
  repeat match goal with
    | H : _ /\ _ |- _ => destruct H
    | H : ?p = ?q -> _ |- _ => first [specialize (H eq_refl) | clear H]
    | H : context [match ?r with Returns => _ | Raises _ => _ end] |- _ =>
        destruct r eqn:?
    | H : (_, _) = (_, _) |- _ => injection H as ? ?
    end;
  try discriminate; subst.

Ltac next_step :=
  match goal with
  | |- context [platformStep ?cfg ?w ?fp ?path ?p ?s] =>
      let c := fresh "c" in
      let Hc := fresh "Hc" in
      destruct (step_cases cfg w fp path p s) as (c & Hc & ->);
      destruct c; simpl in Hc; tidy_case;
      unfold stepOutput, prelude, vendorTrace; unfold_monad
  end.
Ltac four_steps := unfold fourSteps; unfold_monad; repeat next_step.

Lemma fourSteps_outcomes config w filePair videoPath s rs :
  valueOf (fourSteps config w filePair videoPath s) = inr rs ->
  outcomes (traceOf (fourSteps config w filePair videoPath s)) = rs.
Proof.
  four_steps; simpl; intros [= <-]; reflexivity.
Qed.

Lemma disabled_X_false config :
  disabled X config = false -> isXEnabled config = true.
Proof.
  unfold disabled. simpl. destruct (isXEnabled config); [done|]. discriminate.
Qed.

(** Go through the processing of one file pair, case by case: the
    download, the four steps, the verdict, the move and the mail. *)
Ltac know_enabled :=
  repeat match goal with
    | H : disabled X ?config = false |- _ => apply disabled_X_false in H
    end.
Ltac use_enabled :=
  repeat match goal with
    | H : isXEnabled ?config = true |- _ => rewrite !H
    end.

Ltac item_cases :=
  unfold processFilePair, downloadVideo; unfold_monad;
  case_response;
  [ rewrite uploadPhase_steps; four_steps; know_enabled;
    unfold afterUploads, currentMetadata, moveFilesToDone, sendResultEmail;
    cbv beta iota zeta delta
        [bind ret emit get modify logger throw try_catch lift answer logSummary];
    try use_enabled;
    cbn [isAllSuccess skipped success platform ok failed skipDone
         skipDisabled negb andb];
    rewrite ?bool_decide_eq_true_2 by reflexivity;
    rewrite ?bool_decide_eq_false_2 by discriminate;
    cbn [isAllSuccess skipped success platform ok failed skipDone
         skipDisabled negb andb];
    repeat (case_response; unfold_monad)
  | ].


(** ** The status vector changes only on success *)

(** Membership in a list that is written out. *)
Ltac in_cases H :=
  repeat (apply elem_of_cons in H as [H | H]; [try subst|]);
  [..|by apply elem_of_nil in H].

Lemma markDone_flag p q s :
  flag q (markDone p s) = bool_decide (p = q) || flag q s.
Proof. destruct p, q, s; reflexivity. Qed.

Lemma processFilePair_status config w filePair s :
  let out := processFilePair config w filePair s in
  (forall p, flag p (stateOf out)
             = flag p s
               || existsb (fun r => bool_decide (platform r = p)
                                    && success r && negb (skipped r))
                          (outcomes (traceOf out)))
  /\ (forall r, r ∈ outcomes (traceOf out) ->
                success r = true -> skipped r = false ->
                flag (platform r) s = false).
Proof.
  destruct s as [yt tt ig xx]. unfold traceOf, stateOf.
  item_cases; simpl;
    (split; [intros p; destruct p; simpl; by rewrite ?orb_false_r|]);
    intros r Hr Hs Hk; in_cases Hr; done.
Qed.

(** C9. The driver changes [upload_status] only through the block that
    follows a publisher call, and that block does nothing on an outcome
    with [success = false] or [skipped = true]: no field changes and
    nothing is written. On an outcome with [success = true] and
    [skipped = false] it sets the field of that platform and no other.
    Over the whole processing of a file pair, the field of a platform ends
    [true] exactly when it was [true] before or the platform's outcome was
    such a success, and in the latter case it was [false] before. *)
Theorem upload_status_changes_only_on_success
        (config : AppConfig) (w : Site -> Response) (filePair : FilePair)
        (s : UploadStatus) :
  let out := processFilePair config w filePair s in
  (forall p r s', success r = false \/ skipped r = true ->
      recordSuccess config w filePair p r s' = ([], s', inr tt))
  /\ (forall p r s', success r = true -> skipped r = false ->
        stateOf (recordSuccess config w filePair p r s') = markDone p s'
        /\ forall q, flag q (markDone p s') = bool_decide (p = q) || flag q s')
  /\ (forall p videoPath videoUrl metadata (s' : UploadStatus),
        stateOf (publisher p config w videoPath videoUrl metadata s') = s')
  /\ (forall p, flag p (stateOf out)
                = flag p s
                  || existsb (fun r => bool_decide (platform r = p)
                                       && success r && negb (skipped r))
                             (outcomes (traceOf out)))
  /\ (forall r, r ∈ outcomes (traceOf out) ->
                success r = true -> skipped r = false ->
                flag (platform r) s = false).
Proof.
  intros out. split_and!.
  - intros p r s' Hr. unfold recordSuccess.
    by destruct Hr as [-> | ->]; [|rewrite andb_false_r].
  - intros p r s' Hs Hk. unfold recordSuccess. rewrite Hs, Hk.
    split; [|intros q; apply markDone_flag].
    unfold updateJsonStatus, currentMetadata, stateOf. unfold_monad.
    by case_response.
  - intros p videoPath videoUrl [? ? ? [yt tt ig xx]] s'.
    destruct config as [? ? ? ? xc ? en].
    unfold publisher, stateOf. destruct p; simpl.
    + by destruct yt; run.
    + by destruct tt; run.
    + by destruct ig; run.
    + unfold uploadToX. by destruct (negb en || _), xx; run.
  - intros p. destruct (processFilePair_status config w filePair s) as [H _].
    apply H.
  - intros r Hr Hs Hk.
    destruct (processFilePair_status config w filePair s) as [_ H].
    by apply H.
Qed.

Lemma upload_status_changes_only_on_success_witness :
  recordSuccess (sampleConfig None false) tiktokDown freshPair TikTok
                (failed TikTok (js "rate limit"))
                (mkUploadStatus true false false false)
  = ([], mkUploadStatus true false false false, inr tt)
  /\ stateOf (processFilePair (sampleConfig None false) tiktokDown freshPair
                              (mkUploadStatus false false false false))
     = mkUploadStatus true false true false.
Proof.
  pose proof (upload_status_changes_only_on_success
                (sampleConfig None false) tiktokDown freshPair
                (mkUploadStatus false false false false)) as (Hskip & _ & _ & Hflags & _).
  split.
  - apply Hskip. by left.
  - pose proof (Hflags YouTube) as Hy. pose proof (Hflags TikTok) as Ht.
    pose proof (Hflags Instagram) as Hi. pose proof (Hflags X) as Hx.
    destruct (stateOf _) as [yt tt ig xx]. simpl in Hy, Ht, Hi, Hx.
    vm_compute in Hy, Ht, Hi, Hx. by subst.
Defined.

(** ** The status write comes before the next publisher *)




(** ** A publisher's failure stays in its outcome *)

Lemma publisher_total {St} p config w videoPath videoUrl metadata (s : St) :
  exists r, valueOf (publisher p config w videoPath videoUrl metadata s) = inr r
            /\ platform r = p.
Proof.
  destruct metadata as [? ? ? [yt tt ig xx]], config as [? ? ? ? xc ? en].
  unfold publisher, valueOf. destruct p; simpl.
  - destruct yt; run; eauto.
  - destruct tt; run; eauto.
  - destruct ig; run; eauto.
  - unfold uploadToX.
    destruct (negb en || negb (bool_decide (is_Some xc))), xx; run; eauto.
Qed.

Lemma publisher_captures {St} p config w videoPath videoUrl metadata (s : St)
      tweeted e :
  disabled p config = false ->
  flag p (upload_status metadata) = false ->
  vendorAnswer w p = (tweeted, Raises e) ->
  valueOf (publisher p config w videoPath videoUrl metadata s)
  = inr (mkUploadResult p false false (Some (errorMessage e))).
Proof.
  destruct metadata as [? ? ? [yt tt ig xx]], config as [? ? ? ? xc ? en].
  unfold publisher, valueOf, disabled, vendorAnswer.
  destruct p; simpl; intros Hd -> Hv.
  - injection Hv as _ Hv. unfold uploadToYouTube. cbn. by rewrite Hv.
  - injection Hv as _ Hv. unfold uploadToTikTok. cbn. by rewrite Hv.
  - injection Hv as _ Hv. unfold uploadToInstagram. cbn. by rewrite Hv.
  - unfold uploadToX. rewrite Hd. cbn.
    destruct (w AtXUploadMedia); injection Hv as _ Hv; [|by simplify_eq].
    cbn. by rewrite Hv.
Qed.

Ltac in_list :=
  solve [repeat first [apply list_elem_of_here | apply list_elem_of_further]].

Lemma uploadPhase_continues config w filePair videoPath s :
  let out := uploadPhase config w filePair videoPath s in
  (forall r q, r ∈ outcomes (traceOf out) -> success r = false ->
               next (platform r) = Some q ->
               q ∈ publishCalls (traceOf out)
               \/ (q = Instagram /\ exists e, w AtShareLink = Raises e))
  /\ ((forall p, w (AtUpdateJson p) = Returns) -> w AtShareLink = Returns ->
      publishCalls (traceOf out) = platformOrder
      /\ exists rs, valueOf out = inr rs /\ map platform rs = platformOrder).
Proof.
  simpl. rewrite uploadPhase_steps. unfold traceOf, valueOf.
  four_steps; simpl;
    (split;
     [ intros r q Hr Hs Hq; in_cases Hr; simpl in *; try discriminate;
       injection Hq as <-; first [ left; in_list | right; split; [reflexivity|eauto] ]
     | intros HU HS;
       first [ by (split; [|eexists])
             | congruence
             | match goal with
               | H : w (AtUpdateJson ?p) = Raises _ |- _ =>
                   rewrite HU in H; discriminate
               end ] ]).
Qed.

(** C3. A publisher never throws: whatever the vendor's API does, it
    returns an outcome for its platform. When the platform is neither
    disabled nor already done and the vendor's API raises [e], the outcome
    is [success = false], [skipped = false] with the message of [e] as
    [error]. So in phase 3 an outcome with [success = false] is followed
    by the call of the next publisher (for Instagram, unless the Drive
    share link itself raises), and when the Drive calls return, all four
    publishers are called in order and phase 3 returns four outcomes,
    whatever the vendors answer. *)
Theorem publisher_failure_is_contained
        (config : AppConfig) (w : Site -> Response) (filePair : FilePair)
        (videoPath : list N) (s : UploadStatus) :
  let out := uploadPhase config w filePair videoPath s in
  (forall p videoUrl metadata (s' : UploadStatus),
      exists r, valueOf (publisher p config w videoPath videoUrl metadata s') = inr r
                /\ platform r = p)
  /\ (forall p videoUrl metadata (s' : UploadStatus) tweeted e,
         disabled p config = false ->
         flag p (upload_status metadata) = false ->
         vendorAnswer w p = (tweeted, Raises e) ->
         valueOf (publisher p config w videoPath videoUrl metadata s')
         = inr (mkUploadResult p false false (Some (errorMessage e))))
  /\ (forall r q, r ∈ outcomes (traceOf out) -> success r = false ->
                  next (platform r) = Some q ->
                  q ∈ publishCalls (traceOf out)
                  \/ (q = Instagram /\ exists e, w AtShareLink = Raises e))
  /\ ((forall p, w (AtUpdateJson p) = Returns) -> w AtShareLink = Returns ->
      publishCalls (traceOf out) = platformOrder
      /\ exists rs, valueOf out = inr rs /\ map platform rs = platformOrder).
Proof.
  intros out. split_and!.
  - intros. apply publisher_total.
  - intros. by eapply publisher_captures.
  - apply uploadPhase_continues.
  - apply uploadPhase_continues.
Qed.

Lemma publisher_failure_is_contained_witness :
  valueOf (uploadToTikTok tiktokDown (tiktokConfig (sampleConfig None false)) []
                          (metadata freshPair) tt)
  = inr (failed TikTok (js "rate limit"))
  /\ publishCalls (traceOf (uploadPhase (sampleConfig None false) tiktokDown
                                        freshPair []
                                        (mkUploadStatus false false false false)))
     = [YouTube; TikTok; Instagram; X].
Proof.
  pose proof (publisher_failure_is_contained
                (sampleConfig None false) tiktokDown freshPair []
                (mkUploadStatus false false false false))
    as (_ & _ & _ & Hall).
  split; [reflexivity|]. by apply Hall.
Defined.

(** ** Disposition *)

Lemma logSummary_run {St} results (s : St) :
  logSummary results s
  = (map (fun r => Log INFO (MsgSummaryLine r)) results, s, inr tt).
Proof.
  induction results as [|r rest IH]; [done|].
  simpl. unfold bind, logger, emit. by rewrite IH.
Qed.

Lemma finalizeCalls_app t1 t2 :
  finalizeCalls (t1 ++ t2) = (finalizeCalls t1 + finalizeCalls t2)%nat.
Proof. unfold finalizeCalls. by rewrite flat_map_app, length_app. Qed.

Lemma driveMoves_app t1 t2 : driveMoves (t1 ++ t2) = driveMoves t1 ++ driveMoves t2.
Proof. apply flat_map_app. Qed.

Lemma summary_quiet results :
  finalizeCalls (map (fun r => Log INFO (MsgSummaryLine r)) results) = 0%nat
  /\ driveMoves (map (fun r => Log INFO (MsgSummaryLine r)) results) = [].
Proof. by induction results. Qed.

Lemma afterUploads_disposition config w filePair results s :
  let t := traceOf (afterUploads config w filePair results s) in
  finalizeCalls t
  = (if isAllSuccess results (isXEnabled config) then 1 else 0)%nat
  /\ (isAllSuccess results (isXEnabled config) = false -> driveMoves t = []).
Proof.
  destruct (summary_quiet results) as [Hf Hm].
  unfold afterUploads, moveFilesToDone, sendResultEmail, currentMetadata, traceOf.
  destruct (isAllSuccess results (isXEnabled config));
    unfold_monad; rewrite ?logSummary_run;
    repeat (case_response; unfold_monad; rewrite ?logSummary_run);
    unfold finalizeCalls in *; simpl;
    rewrite ?flat_map_app, ?length_app, ?Hf; fold driveMoves;
    rewrite ?driveMoves_app, ?Hm; done.
Qed.

Lemma processFilePair_disposition config w filePair s :
  let t := traceOf (processFilePair config w filePair s) in
  let verdict :=
    reachedVerdict t && isAllSuccess (outcomes t) (isXEnabled config) in
  finalizeCalls t = (if verdict then 1 else 0)%nat
  /\ (verdict = false -> driveMoves t = [])
  /\ Forall (fun report => results report = outcomes t
                           /\ allSuccess report = verdict) (reports t).
Proof.
  unfold traceOf. item_cases; simpl; use_enabled; simpl;
    (split_and!; [done | done | by repeat constructor]).
Qed.

(** C4. Phase 4 calls [moveFilesToDone] once when [allSuccess] is true and
    not at all when it is false, and in the latter case asks Drive to move
    nothing. Over the whole processing of a file pair: [moveFilesToDone] is
    called exactly once when the verdict was reached and [isAllSuccess] of
    the outcomes is true, and otherwise (the verdict false, or never
    reached because an exception ended the processing earlier) it is not
    called and no file is moved; the report mailed carries that verdict. *)
Theorem finalize_exactly_when_all_success
        (config : AppConfig) (w : Site -> Response) (filePair : FilePair)
        (s : UploadStatus) :
  let t := traceOf (processFilePair config w filePair s) in
  let verdict :=
    reachedVerdict t && isAllSuccess (outcomes t) (isXEnabled config) in
  (forall results s',
      let t4 := traceOf (afterUploads config w filePair results s') in
      finalizeCalls t4
      = (if isAllSuccess results (isXEnabled config) then 1 else 0)%nat
      /\ (isAllSuccess results (isXEnabled config) = false -> driveMoves t4 = []))
  /\ finalizeCalls t = (if verdict then 1 else 0)%nat
  /\ (verdict = false -> driveMoves t = [])
  /\ Forall (fun report => results report = outcomes t
                           /\ allSuccess report = verdict) (reports t).
Proof.
  intros t verdict. split.
  - intros results s'. apply afterUploads_disposition.
  - apply processFilePair_disposition.
Qed.

Lemma finalize_exactly_when_all_success_witness :
  finalizeCalls (traceOf (processFilePair (sampleConfig None false) allReturn
                                          freshPair
                                          (mkUploadStatus false false false false)))
  = 1%nat
  /\ finalizeCalls (traceOf (processFilePair (sampleConfig None false) tiktokDown
                                             freshPair
                                             (mkUploadStatus false false false false)))
     = 0%nat
  /\ driveMoves (traceOf (processFilePair (sampleConfig None false) tiktokDown
                                          freshPair
                                          (mkUploadStatus false false false false)))
     = [].
Proof.
  split; [|split].
  - apply (finalize_exactly_when_all_success
             (sampleConfig None false) allReturn freshPair
             (mkUploadStatus false false false false)).
  - apply (finalize_exactly_when_all_success
             (sampleConfig None false) tiktokDown freshPair
             (mkUploadStatus false false false false)).
  - apply (finalize_exactly_when_all_success
             (sampleConfig None false) tiktokDown freshPair
             (mkUploadStatus false false false false)).
    reflexivity.
Defined.

(** ** Running again on a fully published item *)

(** C8. When every flag of [upload_status] is already true, processing the
    file pair again gives only skipped outcomes, for which [isAllSuccess]
    is true; no vendor is contacted, no status write is made, and
    [upload_status] is the same after the run. When the download and the
    share link return, the four outcomes are there, one per platform in
    order, the verdict is reached and the pair is moved to the done
    folder. *)
Theorem rerun_skips_everything
        (config : AppConfig) (w : Site -> Response) (filePair : FilePair) :
  let s := mkUploadStatus true true true true in
  let out := processFilePair config w filePair s in
  let t := traceOf out in
  Forall (fun r => skipped r = true) (outcomes t)
  /\ isAllSuccess (outcomes t) (isXEnabled config) = true
  /\ statusWrites t = []
  /\ vendorUploads t = []
  /\ stateOf out = s
  /\ (w AtDownload = Returns -> w AtShareLink = Returns ->
      map platform (outcomes t) = platformOrder
      /\ reachedVerdict t = true
      /\ finalizeCalls t = 1%nat).
Proof.
  unfold traceOf, stateOf.
  item_cases; simpl;
    (split_and!;
     [ by repeat constructor | done | done | done | done
     | intros Hd Hs; first [done | congruence] ]).
Qed.

Lemma rerun_skips_everything_witness :
  outcomes (traceOf (processFilePair (sampleConfig None false) allReturn donePair
                                     (mkUploadStatus true true true true)))
  = [skipDone YouTube; skipDone TikTok; skipDone Instagram; skipDisabled]
  /\ finalizeCalls (traceOf (processFilePair (sampleConfig None false) allReturn
                                             donePair
                                             (mkUploadStatus true true true true)))
     = 1%nat.
Proof.
  split; [reflexivity|].
  by apply (rerun_skips_everything (sampleConfig None false) allReturn donePair).
Defined.

(** ** Where a malformed metadata record is caught *)











(** Whatever happens while a file pair is processed stays with that pair:
    [processFilePair] returns, having logged at most one error, under the
    name of the pair's video. *)
Lemma processFilePair_boundary config w filePair s :
  let out := processFilePair config w filePair s in
  valueOf out = inr tt
  /\ itemStarts (traceOf out) = [videoFileName filePair]
  /\ (itemErrors (traceOf out) = []
      \/ exists e, itemErrors (traceOf out) = [(videoFileName filePair, e)]).
Proof.
  unfold traceOf, valueOf.
  item_cases; simpl; (split_and!; [done | done | by eauto]).
Qed.









(** * The rest of the program *)

(** ** Configuration: the required variables *)

Lemma getRequiredEnv_supplied {St} e key (s : St) :
  getRequiredEnv e key s
  = if supplied e key then ([], s, inr (trimmed e key))
    else ([], s, inl (ErrorObject (missingEnvMessage key))).
Proof.
  unfold getRequiredEnv, supplied, trimmed. destruct (e !! key) as [v|]; [|done].
  rewrite blank_test. by destruct (forallb isWhiteSpace v).
Qed.

Lemma loadXConfig_returns {St} e (s : St) :
  exists t x, loadXConfig e s = (t, s, inr x).
Proof.
  unfold loadXConfig.
  destruct (getOptionalEnv_cases e "X_API_KEY")
    as [[_ ->] | [_ (? & ? & -> & _)]];
    destruct (getOptionalEnv_cases e "X_API_SECRET")
      as [[_ ->] | [_ (? & ? & -> & _)]];
    destruct (getOptionalEnv_cases e "X_ACCESS_TOKEN")
      as [[_ ->] | [_ (? & ? & -> & _)]];
    destruct (getOptionalEnv_cases e "X_ACCESS_TOKEN_SECRET")
      as [[_ ->] | [_ (? & ? & -> & _)]];
    simpl; by eexists _, _.
Qed.

Ltac read_required e :=
  repeat first
    [ match goal with
      | |- context [getRequiredEnv e ?key ?s] =>
          rewrite (getRequiredEnv_supplied e key s); destruct (supplied e key)
      end;
      simpl; [|done]
    | lazymatch goal with
      | |- context [loadXConfig e ?s] => fail
      | _ => unfold bind at 1
      end ].

Lemma loadConfig_value {St} (e : gmap string (list N)) (s : St) :
  exists x,
    valueOf (loadXConfig e s) = inr x
    /\ valueOf (loadConfig e s)
       = match firstMissing e with
         | Some key => inl (ErrorObject (missingEnvMessage key))
         | None => inr (configOf e x)
         end.
Proof.
  destruct (loadXConfig_returns e s) as (tx & x & Hx).
  exists x. split; [by rewrite Hx|].
  unfold firstMissing, requiredKeys, loadConfig, loadDriveConfig,
    loadYouTubeConfig, loadTikTokConfig, loadInstagramConfig, loadMailConfig,
    valueOf, configOf.
  unfold logger, emit. simpl List.find.
  read_required e.
  rewrite Hx.
  read_required e.
  unfold ret. by destruct (bool_decide (x <> None)).
Qed.

(** X1. [loadConfig] throws exactly when a required variable is absent or
    blank, and the error it throws names the first such variable in the
    order the code reads them (Drive, YouTube, TikTok, Instagram, mail);
    when none is missing it returns the configuration that holds the trimmed
    value of each and the X credentials that [loadXConfig] returns. *)
Theorem loadConfig_required {St} (e : gmap string (list N)) (s : St) :
  match firstMissing e with
  | Some key =>
      In key requiredKeys
      /\ supplied e key = false
      /\ valueOf (loadConfig e s) = inl (ErrorObject (missingEnvMessage key))
  | None =>
      (forall key, In key requiredKeys -> supplied e key = true)
      /\ exists x,
          valueOf (loadXConfig e s) = inr x
          /\ valueOf (loadConfig e s) = inr (configOf e x)
  end.
Proof.
  destruct (loadConfig_value e s) as (x & Hx & Hvalue).
  unfold firstMissing in *.
  destruct (List.find _ requiredKeys) as [key|] eqn:Hfind.
  - apply find_some in Hfind as [Hin Hmissing].
    split_and!; [done| by apply negb_true_iff in Hmissing |done].
  - split; [|by exists x].
    intros key Hin. pose proof (find_none _ _ Hfind key Hin) as Hkey.
    by apply negb_false_iff in Hkey.
Qed.

(** ** Configuration: the values are trimmed *)

Lemma trimStart_split s :
  exists ws, s = ws ++ trimStart s /\ forallb isWhiteSpace ws = true.
Proof.
  induction s as [|c s (ws & Hs & Hws)]; [by exists []|].
  simpl. destruct (isWhiteSpace c) eqn:Hc; [|by exists []].
  exists (c :: ws). simpl. rewrite Hc, Hws. split; [by f_equal|done].
Qed.

Lemma trimStart_head s c rest :
  trimStart s = c :: rest -> isWhiteSpace c = false.
Proof.
  induction s as [|a s IH]; simpl; [done|].
  destruct (isWhiteSpace a) eqn:Ha; [done|]. by intros [= <- _].
Qed.

Lemma trimEnd_split s :
  exists ws, s = trimEnd s ++ ws /\ forallb isWhiteSpace ws = true.
Proof.
  unfold trimEnd. destruct (trimStart_split (rev s)) as (ws & Hs & Hws).
  exists (rev ws). split; [|by rewrite forallb_rev].
  by rewrite <- rev_app_distr, <- Hs, rev_involutive.
Qed.

Lemma trimEnd_last s front c :
  trimEnd s = front ++ [c] -> isWhiteSpace c = false.
Proof.
  unfold trimEnd. intros H. apply (f_equal (@rev N)) in H.
  rewrite rev_involutive, rev_app_distr in H. simpl in H.
  by apply trimStart_head in H.
Qed.

Lemma trimEnd_fixed front c :
  isWhiteSpace c = false -> trimEnd (front ++ [c]) = front ++ [c].
Proof.
  unfold trimEnd. rewrite rev_app_distr. simpl. intros ->. simpl.
  by rewrite rev_involutive.
Qed.

Lemma trim_noOuterSpace v : noOuterSpace (trim v).
Proof.
  unfold trim. split.
  - intros c rest Hv.
    destruct (trimEnd_split (trimStart v)) as (ws & Hs & _).
    rewrite Hv in Hs. by apply trimStart_head in Hs.
  - intros c front Hv. by apply trimEnd_last in Hv.
Qed.

Lemma trim_fixed v : noOuterSpace v -> trim v = v.
Proof.
  intros [Hhead Hlast]. destruct v as [|c rest]; [done|].
  unfold trim. simpl. rewrite (Hhead c rest eq_refl).
  destruct (exists_last (l := c :: rest)) as (front & c' & Hv); [done|].
  rewrite Hv. apply trimEnd_fixed. by apply (Hlast c' front).
Qed.

Lemma trim_split raw :
  exists before after,
    raw = before ++ trim raw ++ after
    /\ forallb isWhiteSpace before = true /\ forallb isWhiteSpace after = true.
Proof.
  destruct (trimStart_split raw) as (before & Hb & Hwb).
  destruct (trimEnd_split (trimStart raw)) as (after & Ha & Hwa).
  exists before, after. unfold trim. by rewrite <- Ha, <- Hb.
Qed.

Lemma env_value_raw {St} e key v (s : St) :
  getOptionalEnv e key = Some v \/ valueOf (getRequiredEnv e key s) = inr v ->
  exists raw, e !! key = Some raw /\ v = trim raw /\ v <> [].
Proof.
  unfold getOptionalEnv, getRequiredEnv.
  destruct (e !! key) as [raw|]; [|by intros [|]].
  destruct (isEmptyString raw || isEmptyString (trim raw)) eqn:Hblank;
    [by intros [|]|].
  apply orb_false_iff in Hblank as [_ Hblank].
  intros Hv. exists raw. split; [done|].
  assert (v = trim raw) as -> by (by destruct Hv as [[= <-]|[= <-]]).
  split; [done|]. by destruct (trim raw).
Qed.

(** X2. A value that [getRequiredEnv] returns, or that [getOptionalEnv]
    gives, is the variable of the environment without the white space
    around it: the raw value is white space, the value, white space; the
    value is not empty, neither its first nor its last code unit is white
    space, and trimming it again changes nothing. *)
Theorem env_values_are_trimmed {St} e key v (s : St) :
  getOptionalEnv e key = Some v \/ valueOf (getRequiredEnv e key s) = inr v ->
  v <> [] /\ noOuterSpace v /\ trim v = v
  /\ exists raw before after,
      e !! key = Some raw /\ raw = before ++ v ++ after
      /\ forallb isWhiteSpace before = true
      /\ forallb isWhiteSpace after = true.
Proof.
  intros (raw & Hraw & -> & Hne)%env_value_raw.
  split_and!; [done|apply trim_noOuterSpace| |].
  - apply trim_fixed, trim_noOuterSpace.
  - destruct (trim_split raw) as (before & after & ? & ? & ?).
    by exists raw, before, after.
Qed.

Lemma env_values_are_trimmed_witness :
  (getOptionalEnv fullXEnv "X_API_KEY" = Some (js "k")
   \/ valueOf (getRequiredEnv (St := unit) fullXEnv "X_API_KEY" tt) = inr (js "k"))
  /\ trim (js "k") = js "k".
Proof.
  assert (getOptionalEnv fullXEnv "X_API_KEY" = Some (js "k")
          \/ valueOf (getRequiredEnv (St := unit) fullXEnv "X_API_KEY" tt)
             = inr (js "k")) as H by (left; vm_compute; reflexivity).
  split; [exact H|].
  exact (proj1 (proj2 (proj2 (env_values_are_trimmed fullXEnv "X_API_KEY" (js "k") tt H)))).
Defined.

(** ** The verdict is a conjunction over the outcomes *)

Lemma isAllSuccess_forallb results isXEnabled :
  isAllSuccess results isXEnabled = forallb (passes isXEnabled) results.
Proof.
  induction results as [|r rest IH]; [done|].
  simpl. unfold passes at 1. rewrite <- IH.
  destruct (skipped r); [done|].
  destruct (bool_decide (platform r = X) && negb isXEnabled); [done|].
  by destruct (success r).
Qed.

(** X3. The verdict of [isAllSuccess] is a conjunction over the outcomes:
    the verdict of two lists together is that of each; the order of the
    outcomes does not matter; removing outcomes never turns a passing
    verdict into a failing one; and a list that passes with X enabled
    passes with X disabled. *)
Theorem isAllSuccess_composes :
  (forall a b isXEnabled,
      isAllSuccess (a ++ b) isXEnabled
      = isAllSuccess a isXEnabled && isAllSuccess b isXEnabled)
  /\ (forall a b isXEnabled,
         a ≡ₚ b -> isAllSuccess a isXEnabled = isAllSuccess b isXEnabled)
  /\ (forall results isXEnabled (keep : UploadResult -> bool),
         isAllSuccess results isXEnabled = true ->
         isAllSuccess (List.filter keep results) isXEnabled = true)
  /\ (forall results,
         isAllSuccess results true = true -> isAllSuccess results false = true).
Proof.
  split_and!.
  - intros a b en. by rewrite !isAllSuccess_forallb, forallb_app.
  - intros a b en Hperm. rewrite !isAllSuccess_forallb.
    induction Hperm as [|r a b _ IH|r r' a|a b c _ IH1 _ IH2]; simpl.
    + done.
    + by rewrite IH.
    + by destruct (passes en r), (passes en r').
    + by rewrite IH1.
  - intros results en keep. rewrite !isAllSuccess_forallb.
    induction results as [|r rest IH]; [done|]. simpl.
    intros [Hr Hrest]%andb_true_iff. destruct (keep r); simpl; [|auto].
    rewrite Hr. auto.
  - intros results. rewrite !isAllSuccess_forallb.
    induction results as [|r rest IH]; [done|]. simpl.
    intros [Hr Hrest]%andb_true_iff. rewrite (IH Hrest), andb_true_r.
    unfold passes in *.
    by destruct (skipped r), (success r), (bool_decide (platform r = X)).
Qed.

Lemma isAllSuccess_composes_witness :
  isAllSuccess [ok YouTube; failed X []] true = false
  /\ isAllSuccess [failed X []; ok YouTube] true = false.
Proof.
  assert ([ok YouTube; failed X []] ≡ₚ [failed X []; ok YouTube]) as Hperm
    by apply Permutation_swap.
  pose proof (proj1 (proj2 isAllSuccess_composes) _ _ true Hperm) as Heq.
  split; [reflexivity|]. rewrite <- Heq. reflexivity.
Defined.

(** ** Base names *)

Lemma stripSuffixIgnoreCase_strips suffix base ext :
  map asciiLower ext = suffix ->
  stripSuffixIgnoreCase suffix (base ++ ext) = base.
Proof.
  intros <-. unfold stripSuffixIgnoreCase.
  rewrite length_app, length_map.
  replace (length base + length ext - length ext)%nat with (length base) by lia.
  rewrite drop_app_length, take_app_length.
  rewrite bool_decide_eq_true_2 by lia.
  by rewrite bool_decide_eq_true_2.
Qed.

(** X4. The base name of a file, [name.replace(/<suffix>$/i, '')]: a name
    that ends in the suffix, in any mix of upper and lower case, loses
    exactly that ending; every other name is returned as it is; the rest of
    the name is never changed. So a video and a JSON file whose names end
    in [.mp4] and [.json] in any case have the same base name exactly when
    what precedes the endings is the same string, compared with case. *)
Theorem stripSuffixIgnoreCase_spec (suffix name : list N) :
  (forall base ext,
      map asciiLower ext = suffix ->
      stripSuffixIgnoreCase suffix (base ++ ext) = base)
  /\ ((forall base ext, name = base ++ ext -> map asciiLower ext <> suffix) ->
      stripSuffixIgnoreCase suffix name = name)
  /\ (exists ext,
         name = stripSuffixIgnoreCase suffix name ++ ext
         /\ (ext = [] \/ map asciiLower ext = suffix))
  /\ (forall base base' e1 e2,
         map asciiLower e1 = js ".mp4" -> map asciiLower e2 = js ".json" ->
         stripSuffixIgnoreCase (js ".json") (base' ++ e2)
         = stripSuffixIgnoreCase (js ".mp4") (base ++ e1)
         <-> base' = base).
Proof.
  split_and!.
  - intros base ext. apply stripSuffixIgnoreCase_strips.
  - intros Hnot. unfold stripSuffixIgnoreCase.
    destruct (bool_decide (length suffix <= length name)%nat); [|done].
    simpl. case_bool_decide as Hends; [|done].
    by destruct (Hnot _ _ (eq_sym (take_drop _ name)) Hends).
  - unfold stripSuffixIgnoreCase.
    destruct (bool_decide (length suffix <= length name)%nat); simpl;
      [case_bool_decide as Hends|].
    + eexists. split; [symmetry; apply take_drop|by right].
    + exists []. by rewrite app_nil_r; auto.
    + exists []. by rewrite app_nil_r; auto.
  - intros base base' e1 e2 H1 H2.
    by rewrite !stripSuffixIgnoreCase_strips.
Qed.

Lemma stripSuffixIgnoreCase_spec_witness :
  stripSuffixIgnoreCase (js ".mp4") (js "Clip.MP4") = js "Clip"
  /\ stripSuffixIgnoreCase (js ".mp4") (js "clip.mov") = js "clip.mov".
Proof.
  split.
  - apply (proj1 (stripSuffixIgnoreCase_spec (js ".mp4") []) (js "Clip") (js ".MP4")).
    reflexivity.
  - reflexivity.
Defined.

(** ** What [fetchJsonContent] accepts and what it throws *)

Ltac json_cases v :=
  destruct v as [[|[]|[| |]|[|]| |]|]; simpl; try done.

(** X5. The record [fetchJsonContent] returns: the parsed value is an
    object, [title] and [description] are its non-empty strings, [tags] is
    its array, with elements of any kind, and [upload_status] is an object
    or an array whose four flags are not checked at all: a platform counts
    as published exactly when its field is truthy, so a missing field, an
    empty object and an array all mean that nothing is published yet. The
    call reads the file once and does nothing else. *)
Theorem fetchJsonContent_record {St} (w : World) (id : list N) (data : JValue)
        (md : PostMetadata) (s : St) :
  jsonBody w id = inr data ->
  valueOf (fetchJsonContent w id s) = inr md ->
  field data "title" = Some (JString (title md)) /\ title md <> []
  /\ field data "description" = Some (JString (description md))
  /\ description md <> []
  /\ field data "tags" = Some (JArray (tags md))
  /\ (exists status,
         field data "upload_status" = Some status
         /\ objectOrArray (Some status) = true
         /\ forall p, flag p (upload_status md)
                      = truthy (field status (platformKey p)))
  /\ traceOf (fetchJsonContent w id s) = [DriveRead id]
  /\ stateOf (fetchJsonContent w id s) = s.
Proof.
  intros Hbody. unfold fetchJsonContent, valueOf, traceOf, stateOf, property,
    getProp, field.
  unfold_monad. rewrite Hbody.
  destruct data as [| | | |items|fields]; simpl; try done.
  destruct (lastBinding (js "title") fields) as [[|[]|[| |]|[|]| |]|];
    simpl; try done.
  destruct (lastBinding (js "description") fields) as [[|[]|[| |]|[|]| |]|];
    simpl; try done.
  destruct (lastBinding (js "tags") fields) as [[]|]; simpl; try done.
  destruct (lastBinding (js "upload_status") fields) as [[|[]|[| |]|[|]| |]|];
    simpl; try done;
    intros [= <-]; simpl; (split_and!; try done);
    eexists; (split_and!; [done|done|]); intros p; by destruct p.
Qed.

Lemma fetchJsonContent_record_witness :
  field completeJson "title" = Some (JString (js "second")).
Proof.
  apply (fetchJsonContent_record
           secondPairWorld (js "j2") completeJson
           (mkPostMetadata (js "second") (js "second video") [JString (js "tag")]
                           (mkUploadStatus false false false false)) tt);
    reflexivity.
Defined.

(** X6. The error of [fetchJsonContent]. An error of the Drive read or of
    [JSON.parse] is passed on as it is. The value [null] fails with the
    [TypeError] of reading [title]. Otherwise the checks run in the order
    [title], [description], [tags], [upload_status], and the error thrown
    is that of the first check that fails, whatever the later fields are.
    In each case the file has been read once and nothing else was done. *)
Theorem fetchJsonContent_first_defect {St} (w : World) (id : list N) (s : St) :
  traceOf (fetchJsonContent w id s) = [DriveRead id]
  /\ stateOf (fetchJsonContent w id s) = s
  /\ match jsonBody w id with
     | inl e => valueOf (fetchJsonContent w id s) = inl e
     | inr JNull => valueOf (fetchJsonContent w id s) = inl (nullAccess "title")
     | inr data =>
         (nonEmptyString (field data "title") = false ->
          valueOf (fetchJsonContent w id s) = inl badTitle)
         /\ (nonEmptyString (field data "title") = true ->
             nonEmptyString (field data "description") = false ->
             valueOf (fetchJsonContent w id s) = inl badDescription)
         /\ (nonEmptyString (field data "title") = true ->
             nonEmptyString (field data "description") = true ->
             isArray (field data "tags") = false ->
             valueOf (fetchJsonContent w id s) = inl badTags)
         /\ (nonEmptyString (field data "title") = true ->
             nonEmptyString (field data "description") = true ->
             isArray (field data "tags") = true ->
             objectOrArray (field data "upload_status") = false ->
             valueOf (fetchJsonContent w id s) = inl badUploadStatus)
     end.
Proof.
  unfold fetchJsonContent, valueOf, traceOf, stateOf, property, getProp, field.
  unfold_monad.
  destruct (jsonBody w id) as [e|data]; [done|].
  destruct data as [| | | |items|fields]; simpl; try done.
  json_cases (lastBinding (js "title") fields).
  json_cases (lastBinding (js "description") fields).
  destruct (lastBinding (js "tags") fields) as [[]|]; simpl; try done.
  json_cases (lastBinding (js "upload_status") fields).
Qed.

Lemma fetchJsonContent_first_defect_witness :
  valueOf (fetchJsonContent (St := unit) twoPairsWorld (js "j1") tt) = inl badTitle.
Proof.
  apply (proj2 (proj2 (fetchJsonContent_first_defect twoPairsWorld (js "j1") tt))).
  reflexivity.
Defined.

(** ** The file pairs of the pending folder *)






(** ** What a computation never does *)

Section Always.
Context {St : Type} (R : Event -> Prop).

Lemma always_ret {A} (a : A) : always R (ret (St := St) a).
Proof. intros s. constructor. Qed.

Lemma always_throw {A} e : always R (throw (St := St) (A := A) e).
Proof. intros s. constructor. Qed.

Lemma always_get : always R (get (St := St)).
Proof. intros s. constructor. Qed.

Lemma always_modify f : always R (modify (St := St) f).
Proof. intros s. constructor. Qed.

Lemma always_answer r : always R (answer (St := St) r).
Proof. intros s. destruct r; constructor. Qed.

Lemma always_lift {A} (r : Thrown + A) : always R (lift (St := St) r).
Proof. intros s. destruct r; constructor. Qed.

Lemma always_emit ev : R ev -> always R (emit (St := St) ev).
Proof. intros Hev s. by repeat constructor. Qed.

Lemma always_logger level m :
  R (Log level m) -> always R (logger (St := St) level m).
Proof. apply always_emit. Qed.

Lemma always_bind {A B} (m : M St A) (k : A -> M St B) :
  always R m -> (forall a, always R (k a)) -> always R (bind m k).
Proof.
  intros Hm Hk s. specialize (Hm s). unfold bind, traceOf in *.
  destruct (m s) as [[t1 s1] [e|a]]; [done|].
  specialize (Hk a s1). unfold traceOf in Hk.
  destruct (k a s1) as [[t2 s2] r]. by apply Forall_app.
Qed.

Lemma always_try_catch {A} (m : M St A) (handler : Thrown -> M St A) :
  always R m -> (forall e, always R (handler e)) ->
  always R (try_catch m handler).
Proof.
  intros Hm Hh s. specialize (Hm s). unfold try_catch, traceOf in *.
  destruct (m s) as [[t1 s1] [e|a]]; [|done].
  specialize (Hh e s1). unfold traceOf in Hh.
  destruct (handler e s1) as [[t2 s2] r]. by apply Forall_app.
Qed.

Lemma always_logSummary results :
  (forall r, R (Log INFO (MsgSummaryLine r))) ->
  always R (logSummary (St := St) results).
Proof.
  intros Hline. induction results as [|r rest IH]; [apply always_ret|].
  simpl. apply always_bind; [by apply always_logger|done].
Qed.
End Always.

(** Go through a computation, operation by operation. *)
Ltac always_step :=
  first
    [ apply always_ret | apply always_throw | apply always_get
    | apply always_modify | apply always_answer | apply always_lift
    | apply always_logSummary; [intros ?]
    | apply always_logger | apply always_emit
    | apply always_bind; [|intros ?]
    | apply always_try_catch; [|intros ?]
    | match goal with
      | |- always _ (if ?b then _ else _) => destruct b
      | |- always _ (match ?x with _ => _ end) => destruct x
      end ].
Ltac always_run := repeat always_step; simpl; try done.

(** A property of every event of a trace that is written out. *)
Ltac split_events :=
  repeat first [rewrite Forall_app | rewrite Forall_cons | rewrite Forall_nil];
  simpl.

(** ** A file pair is processed with its own two files *)

Lemma recordSuccess_own config w filePair p result :
  always (ownEvent config filePair) (recordSuccess config w filePair p result).
Proof.
  intros s. unfold recordSuccess, currentMetadata, updateJsonStatus, traceOf.
  destruct (success result && negb (skipped result)); unfold_monad;
    [|constructor].
  destruct (w (AtUpdateJson p)); simpl; by repeat constructor.
Qed.

Lemma uploadPhase_own config w filePair videoPath :
  always (ownEvent config filePair) (uploadPhase config w filePair videoPath).
Proof.
  unfold uploadPhase, currentMetadata, getVideoShareLink.
  autounfold with publishers.
  repeat first [apply recordSuccess_own | always_step]; by simpl.
Qed.

Lemma afterUploads_own config w filePair results :
  always (ownEvent config filePair) (afterUploads config w filePair results).
Proof.
  intros s. unfold afterUploads, currentMetadata, moveFilesToDone,
    sendResultEmail, traceOf.
  pose proof (always_logSummary (St := UploadStatus)
                (ownEvent config filePair) results (fun _ => I)) as Hsum.
  unfold_monad. 
  destruct (isAllSuccess results (isXEnabled config));
    repeat (unfold_monad; first [case_response|
      match goal with
      | |- context [logSummary results ?s'] =>
          let H := fresh in
          pose proof (Hsum s') as H; unfold traceOf in H;
          destruct (logSummary results s') as [[? ?] [?|?]]
      end]);
    simpl in *; split_events; unfold sameContent; simpl; intuition auto.
Qed.

Lemma processFilePair_own_lemma config w filePair s :
  Forall (ownEvent config filePair)
         (traceOf (processFilePair config w filePair s)).
Proof.
  revert s. change (always (ownEvent config filePair)
                           (processFilePair config w filePair)).
  unfold processFilePair, downloadVideo.
  repeat first [apply uploadPhase_own | apply afterUploads_own | always_step];
    by simpl.
Qed.

(** X8. Processing a file pair concerns its two files only: whatever the
    outside answers, the video downloaded and shared is the pair's, status
    writes go to the pair's JSON file with the title, description and tags
    of its record unchanged, the files moved are the pair's two, from the
    pending folder to the done folder of the configuration, the report
    mailed is about the pair, and the processing neither lists nor reads
    the folder nor ends the process. *)
Theorem processFilePair_own (config : AppConfig) (w : Site -> Response)
        (filePair : FilePair) (s : UploadStatus) :
  Forall (ownEvent config filePair)
         (traceOf (processFilePair config w filePair s)).
Proof. apply processFilePair_own_lemma. Qed.

(** ** The run of [main] *)

Ltac config_events :=
  unfold loadConfig, loadDriveConfig, loadYouTubeConfig, loadTikTokConfig,
    loadInstagramConfig, loadMailConfig, loadXConfig, getRequiredEnv;
  cbv zeta; repeat always_step; by simpl.

Lemma loadConfig_logs {St} e : always isLog (loadConfig (St := St) e).
Proof. config_events. Qed.




Lemma ownEvent_running config filePair t :
  Forall (ownEvent config filePair) t -> Forall running t.
Proof.
  intros H. eapply Forall_impl; [exact H|].
  intros [level []| | | | | | | | | | | | | |]; by simpl.
Qed.

Lemma forEachFilePair_trace config w index filePairs :
  traceOf (forEachFilePair config w index filePairs tt)
  = itemsTrace config w index filePairs
  /\ valueOf (forEachFilePair config w index filePairs tt) = inr tt.
Proof.
  revert index. induction filePairs as [|filePair rest IH]; intros index; [done|].
  destruct (processFilePair_boundary config (respond w index) filePair
              (upload_status (metadata filePair))) as (Hv & _).
  destruct (IH (S index)) as [IHt IHv].
  simpl. unfold itemTrace, bind, onItsStatus, traceOf, valueOf in *.
  destruct (processFilePair _ _ _ _) as [[t1 s1] v1]. simpl in *. subst v1.
  destruct (forEachFilePair _ _ _ _ _) as [[t2 []] v2]. simpl in *.
  by subst.
Qed.


Ltac same_trace :=
  unfold fatalEnd, closing, opening; simpl;
  repeat (rewrite <- app_assoc; simpl); try done.

Lemma main_run w :
  main w
  = match loadConfig (env w) tt with
    | (t1, _, inl e) => (opening ++ t1 ++ fatalEnd e, 1%nat)
    | (t1, _, inr config) =>
        match fetchFilePairs w (drive config) tt with
        | (t2, _, inl e) =>
            (opening ++ t1 ++ [Log INFO MsgPhase2] ++ t2 ++ fatalEnd e, 1%nat)
        | (t2, _, inr filePairs) =>
            (opening ++ t1 ++ [Log INFO MsgPhase2] ++ t2
             ++ (if bool_decide (length filePairs = 0%nat)
                 then [Log INFO MsgNoPending]
                 else [Log INFO (MsgDetected (length filePairs))]
                      ++ itemsTrace config w 0 filePairs ++ closing)
             ++ [CleanupTmp], 0%nat)
        end
    end.
Proof.
  unfold main, batch. unfold_monad.
  destruct (loadConfig (env w) tt) as [[t1 []] [e|config]]; [done|].
  destruct (fetchFilePairs w (drive config) tt) as [[t2 []] [e|filePairs]].
  { same_trace. }
  case_bool_decide as Hlen; [same_trace|].
  destruct (forEachFilePair_trace config w 0 filePairs) as [Ht Hv].
  unfold traceOf, valueOf in *.
  destruct (forEachFilePair config w 0 filePairs tt) as [[t3 []] v3].
  simpl in *. subst. same_trace.
Qed.


(** X10. A required variable that is absent or blank stops the run before
    anything outside is contacted: [main] logs the error that names the
    first such variable as fatal and exits with code 1, and up to there the
    run has written log lines only, with no request to Drive, to a
    platform or to the mailer. *)
Theorem missing_variable_stops_before_contact (w : World) (key : string) :
  firstMissing (env w) = Some key ->
  exists t,
    main w = (opening ++ t ++ fatalEnd (ErrorObject (missingEnvMessage key)),
              1%nat)
    /\ Forall isLog t.
Proof.
  intros Hkey. rewrite main_run.
  destruct (loadConfig_value (env w) tt) as (x & _ & Hvalue).
  pose proof (loadConfig_logs (env w) tt) as Hlogs.
  rewrite Hkey in Hvalue. unfold valueOf, traceOf in *.
  destruct (loadConfig (env w) tt) as [[t1 []] [e|config]]; simpl in *;
    [|done].
  injection Hvalue as ->. by exists t1.
Qed.

Lemma missing_variable_stops_before_contact_witness :
  snd (main noMailToWorld) = 1%nat.
Proof.
  assert (firstMissing (env noMailToWorld) = Some "MAIL_TO"%string) as Hkey
    by (vm_compute; reflexivity).
  destruct (missing_variable_stops_before_contact noMailToWorld "MAIL_TO" Hkey)
    as (t & -> & _).
  reflexivity.
Defined.





(** ** One file pair, phase by phase *)

(** The processing of a file pair is its download, phase 3, phase 4 and,
    when one of them throws, the line of the error handler. *)
Lemma processFilePair_parts config w filePair s :
  processFilePair config w filePair s
  = match w AtDownload with
    | Raises e =>
        (itemHeader filePair ++ downloadTrace filePair (Raises e)
         ++ itemFailure filePair e, s, inr tt)
    | Returns =>
        match uploadPhase config w filePair
                          (localPath (videoFileName filePair)) s with
        | (t3, s3, inl e) =>
            (itemHeader filePair ++ downloadTrace filePair Returns ++ t3
             ++ itemFailure filePair e, s3, inr tt)
        | (t3, s3, inr results) =>
            match afterUploads config w filePair results s3 with
            | (t4, s4, inl e) =>
                (itemHeader filePair ++ downloadTrace filePair Returns ++ t3
                 ++ t4 ++ itemFailure filePair e, s4, inr tt)
            | (t4, s4, inr _) =>
                (itemHeader filePair ++ downloadTrace filePair Returns ++ t3
                 ++ t4, s4, inr tt)
            end
        end
    end.
Proof.
  unfold processFilePair, downloadVideo, itemHeader, downloadTrace, itemFailure.
  unfold_monad. destruct (w AtDownload) as [|e]; [|done]. unfold_monad.
  destruct (uploadPhase _ _ _ _ _) as [[t3 s3] [e|results]]; simpl.
  { by rewrite <- ?app_assoc. }
  destruct (afterUploads _ _ _ _ _) as [[t4 s4] [e|[]]]; simpl;
    by rewrite ?app_nil_r, <- ?app_assoc.
Qed.

Lemma afterUploads_phase4 config w filePair results :
  always phase4Event (afterUploads config w filePair results).
Proof.
  unfold afterUploads, currentMetadata, moveFilesToDone, sendResultEmail.
  cbv zeta. always_run.
Qed.

Lemma phase4_silent {A} (g : Event -> list A) t :
  ofPhase3 g -> Forall phase4Event t -> flat_map g t = [].
Proof.
  intros Hg Ht. induction Ht as [|ev t Hev _ IH]; [done|].
  simpl. rewrite IH, app_nil_r. specialize (Hg ev).
  by destruct ev as [level []| | | | | | | | | | | | | |].
Qed.

(** What is read off phase 3 can be read off the whole processing. *)
Lemma read_off_phase3 {A} (g : Event -> list A) config w filePair s :
  ofPhase3 g ->
  flat_map g (traceOf (processFilePair config w filePair s))
  = match w AtDownload with
    | Returns =>
        flat_map g (traceOf (uploadPhase config w filePair
                               (localPath (videoFileName filePair)) s))
    | Raises _ => []
    end.
Proof.
  intros Hg. rewrite processFilePair_parts. unfold traceOf.
  assert (forall level m, g (Log level m) = []) as Hlog
    by (intros level m; apply (Hg (Log level m))).
  pose proof (Hg (DriveDownload (videoFileId filePair))) as Hdl. simpl in Hdl.
  destruct (w AtDownload) as [|e]; simpl; rewrite ?Hlog, ?Hdl; [|done].
  destruct (uploadPhase _ _ _ _ _) as [[t3 s3] [e|results]]; simpl.
  { rewrite ?Hlog, ?Hdl, flat_map_app. unfold itemFailure. simpl.
    by rewrite Hlog, !app_nil_r. }
  pose proof (afterUploads_phase4 config w filePair results s3) as H4.
  unfold traceOf in H4.
  destruct (afterUploads _ _ _ _ _) as [[t4 s4] [e|[]]]; simpl;
    rewrite ?Hlog, ?Hdl, !flat_map_app, (phase4_silent g t4) by done;
    unfold itemFailure; simpl; by rewrite ?Hlog, ?app_nil_r.
Qed.

Lemma recordSuccess_phase3 config w filePair p result :
  always phase3Event (recordSuccess config w filePair p result).
Proof.
  intros s. unfold recordSuccess, currentMetadata, updateJsonStatus, traceOf.
  destruct (success result && negb (skipped result)); unfold_monad;
    [|constructor].
  destruct (w (AtUpdateJson p)); simpl; by repeat constructor.
Qed.

Lemma uploadPhase_phase3 config w filePair videoPath :
  always phase3Event (uploadPhase config w filePair videoPath).
Proof.
  unfold uploadPhase, currentMetadata, getVideoShareLink.
  autounfold with publishers.
  repeat first [apply recordSuccess_phase3 | always_step]; by simpl.
Qed.

Lemma phase3_silent {A} (g : Event -> list A) t :
  ofPhase4 g -> Forall phase3Event t -> flat_map g t = [].
Proof.
  intros Hg Ht. induction Ht as [|ev t Hev _ IH]; [done|].
  simpl. rewrite IH, app_nil_r. specialize (Hg ev).
  by destruct ev as [level []| | | | | | | | | | | | | |].
Qed.

(** What is read off phase 4 can be read off the whole processing. *)
Lemma read_off_phase4 {A} (g : Event -> list A) config w filePair s :
  ofPhase4 g ->
  flat_map g (traceOf (processFilePair config w filePair s))
  = match w AtDownload with
    | Returns =>
        match uploadPhase config w filePair
                          (localPath (videoFileName filePair)) s with
        | (_, s3, inr results) =>
            flat_map g (traceOf (afterUploads config w filePair results s3))
        | _ => []
        end
    | Raises _ => []
    end.
Proof.
  intros Hg. rewrite processFilePair_parts. unfold traceOf.
  assert (forall level video e, g (Log level (MsgItemError video e)) = [])
    as Herr by (intros level video e; apply (Hg (Log level (MsgItemError video e)))).
  pose proof (Hg (Log INFO MsgBanner)) as H1.
  pose proof (Hg (Log INFO (MsgItemStart (videoFileName filePair)))) as H2.
  pose proof (Hg (Log INFO (MsgItemTitle (title (metadata filePair))))) as H3.
  pose proof (Hg (Log INFO (MsgDownloading (videoFileName filePair)))) as H4.
  pose proof (Hg (DriveDownload (videoFileId filePair))) as H5.
  pose proof (Hg (Log SUCCESS (MsgDownloaded (videoFileName filePair)))) as H6.
  simpl in *.
  destruct (w AtDownload) as [|e]; simpl; rewrite ?H1, ?H2, ?H3, ?H4, ?H5, ?H6;
    unfold itemFailure; simpl; rewrite ?Herr; [|done].
  pose proof (uploadPhase_phase3 config w filePair
                (localPath (videoFileName filePair)) s) as Hp3.
  unfold traceOf in Hp3.
  destruct (uploadPhase _ _ _ _ _) as [[t3 s3] [e|results]]; simpl in *.
  { rewrite ?H1, ?H2, ?H3, ?H4, ?H5, ?H6, !flat_map_app,
      (phase3_silent g t3) by done.
    simpl. by rewrite ?Herr. }
  destruct (afterUploads _ _ _ _ _) as [[t4 s4] [e|[]]]; simpl;
    rewrite ?H1, ?H2, ?H3, ?H4, ?H5, ?H6, !flat_map_app,
      (phase3_silent g t3) by done;
    simpl; by rewrite ?Herr, ?app_nil_r.
Qed.

(** The item-level errors of the processing, part by part. *)
Lemma itemErrors_parts config w filePair s :
  itemErrors (traceOf (processFilePair config w filePair s))
  = match w AtDownload with
    | Raises e => [(videoFileName filePair, e)]
    | Returns =>
        match uploadPhase config w filePair
                          (localPath (videoFileName filePair)) s with
        | (_, _, inl e) => [(videoFileName filePair, e)]
        | (_, s3, inr results) =>
            match valueOf (afterUploads config w filePair results s3) with
            | inl e => [(videoFileName filePair, e)]
            | inr _ => []
            end
        end
    end.
Proof.
  rewrite processFilePair_parts. unfold traceOf, valueOf, itemErrors.
  destruct (w AtDownload) as [|e]; [|done].
  pose proof (uploadPhase_phase3 config w filePair
                (localPath (videoFileName filePair)) s) as Hp3.
  unfold traceOf in Hp3.
  assert (forall t, Forall phase3Event t ->
                    flat_map (fun ev => match ev with
                                        | Log ERROR (MsgItemError video e) =>
                                            [(video, e)]
                                        | _ => []
                                        end) t = []) as Hno3.
  { intros t Ht. induction Ht as [|ev t Hev _ IH]; [done|]. simpl.
    rewrite IH. by destruct ev as [[] []| | | | | | | | | | | | | |]. }
  assert (forall t, Forall phase4Event t ->
                    flat_map (fun ev => match ev with
                                        | Log ERROR (MsgItemError video e) =>
                                            [(video, e)]
                                        | _ => []
                                        end) t = []) as Hno4.
  { intros t Ht. induction Ht as [|ev t Hev _ IH]; [done|]. simpl.
    rewrite IH. by destruct ev as [[] []| | | | | | | | | | | | | |]. }
  destruct (uploadPhase _ _ _ _ _) as [[t3 s3] [e|results]]; simpl in *.
  { by rewrite flat_map_app, Hno3. }
  pose proof (afterUploads_phase4 config w filePair results s3) as Hp4.
  unfold traceOf in Hp4.
  destruct (afterUploads _ _ _ _ _) as [[t4 s4] [e|[]]]; simpl in *;
    rewrite !flat_map_app, Hno3, Hno4 by done; by simpl.
Qed.

Ltac use_disabled :=
  repeat match goal with
    | H : disabled ?p ?config = _ |- _ => rewrite !H
    end.

(** Go through phase 3, case by case. *)
Ltac phase3_cases s :=
  destruct s as [? ? ? ?]; rewrite uploadPhase_steps; four_steps.

Lemma uploadPhase_contacted config w filePair videoPath s :
  let t := traceOf (uploadPhase config w filePair videoPath s) in
  vendorUploads t = List.filter (pending config s) (publishCalls t)
  /\ NoDup (publishCalls t).
Proof.
  unfold traceOf. phase3_cases s; simpl; unfold pending; simpl;
    use_disabled; simpl;
    (split;
     [ by rewrite ?andb_false_r
     | solve [repeat (apply NoDup_cons; split;
                      [intros Hin; in_cases Hin; discriminate|]);
              apply NoDup_nil_2] ]).
Qed.

Lemma processFilePair_contacted config w filePair s :
  let t := traceOf (processFilePair config w filePair s) in
  vendorUploads t = List.filter (pending config s) (publishCalls t)
  /\ NoDup (vendorUploads t)
  /\ forall p, p ∈ vendorUploads t ->
               flag p s = false /\ disabled p config = false.
Proof.
  intros t.
  assert (vendorUploads t = List.filter (pending config s) (publishCalls t)
          /\ NoDup (publishCalls t)) as [Heq Hnodup].
  { subst t. unfold vendorUploads, publishCalls.
    rewrite !read_off_phase3 by (intros ev; by destruct ev).
    destruct (w AtDownload); [apply uploadPhase_contacted|].
    split; [done|apply NoDup_nil_2]. }
  split_and!; [done| |].
  - rewrite Heq. clear Heq. induction Hnodup as [|p l Hp _ IH]; simpl.
    + apply NoDup_nil_2.
    + destruct (pending config s p); [|done]. apply NoDup_cons. split; [|done].
      intros Hin%list_elem_of_In%filter_In. apply Hp, list_elem_of_In, Hin.
  - intros p. rewrite Heq. intros [_ Hp]%list_elem_of_In%filter_In.
    unfold pending in Hp. apply andb_true_iff in Hp as [H1 H2].
    by destruct (flag p s), (disabled p config).
Qed.

(** X13. Which platforms are contacted. While a file pair is processed, the
    vendors contacted are, in order, the platforms whose publisher was
    called and that were still to be published when the processing began:
    flag not set and, for X, enabled with its configuration. A platform
    whose flag is set, and X when it is disabled, is never contacted; no
    platform is contacted twice. *)
Theorem contacted_are_the_pending (config : AppConfig) (w : Site -> Response)
        (filePair : FilePair) (s : UploadStatus) :
  let t := traceOf (processFilePair config w filePair s) in
  vendorUploads t = List.filter (pending config s) (publishCalls t)
  /\ NoDup (vendorUploads t)
  /\ forall p, p ∈ vendorUploads t ->
               flag p s = false /\ disabled p config = false.
Proof. apply processFilePair_contacted. Qed.

(** ** Phase 3 and phase 4 *)

(** Go through phase 3, case by case, for a statement about its output. *)
Ltac phase3_runs :=
  match goal with
  | |- let _ := uploadPhase ?config ?w ?fp ?vp ?s in _ =>
      let out := fresh "out" in
      let Hout := fresh "Hout" in
      intros out; assert (out = uploadPhase config w fp vp s) as Hout by done;
      clearbody out; revert Hout;
      destruct s as [? ? ? ?]; rewrite uploadPhase_steps; four_steps;
      intros ->; unfold traceOf, stateOf, valueOf; simpl
  end.


Lemma uploadPhase_shares config w filePair videoPath s :
  let out := uploadPhase config w filePair videoPath s in
  (shares (traceOf out) = [] \/ shares (traceOf out) = [videoFileId filePair])
  /\ (Instagram ∈ publishCalls (traceOf out) ->
      shares (traceOf out) = [videoFileId filePair] /\ w AtShareLink = Returns)
  /\ (w (AtUpdateJson YouTube) = Returns -> w (AtUpdateJson TikTok) = Returns ->
      shares (traceOf out) = [videoFileId filePair])
  /\ (forall e, w AtShareLink = Raises e ->
                shares (traceOf out) = [videoFileId filePair] ->
                publishCalls (traceOf out) = [YouTube; TikTok]
                /\ valueOf out = inl e).
Proof.
  phase3_runs;
    (split_and!;
     [ by auto
     | intros Hin; in_cases Hin; by try discriminate
     | intros; first [done | congruence]
     | intros e' He'; first [done | congruence
                            | intros _; split; [done|congruence] ] ]).
Qed.


Lemma uploadPhase_results config w filePair videoPath s :
  let out := uploadPhase config w filePair videoPath s in
  forall results, valueOf out = inr results ->
    outcomes (traceOf out) = results
    /\ map platform results = platformOrder
    /\ (isXEnabled config = false ->
        Forall (fun r => platform r = X -> skipped r = true) results)
    /\ stored s (traceOf out) = stateOf out.
Proof.
  phase3_runs; intros results [= <-];
    (split_and!;
     [ done | done
     | intros Hen; repeat constructor; try done;
       match goal with
       | H : disabled X ?config = false |- _ =>
           apply disabled_X_false in H; congruence
       end
     | done ]).
Qed.

Lemma summary_read results :
  reports (map (fun r => Log INFO (MsgSummaryLine r)) results) = []
  /\ summaryLines (map (fun r => Log INFO (MsgSummaryLine r)) results) = results.
Proof.
  induction results as [|r rest [IH1 IH2]]; [done|]. simpl. by rewrite IH2.
Qed.

(** Phase 4, case by case: the verdict, the two moves, the mail. *)
Lemma afterUploads_cases config w filePair results s :
  let out := afterUploads config w filePair results s in
  let verdict := isAllSuccess results (isXEnabled config) in
  stateOf out = s
  /\ summaryLines (traceOf out)
     = match valueOf out with inr _ => results | inl _ => [] end
  /\ driveMoves (traceOf out)
     = (if verdict
        then match w AtMoveVideo with
             | Returns => [videoFileId filePair; jsonFileId filePair]
             | Raises _ => [videoFileId filePair]
             end
        else [])
  /\ match valueOf out with
     | inr _ =>
         reports (traceOf out)
         = [mkBatchResult
              (mkFilePair (videoFileId filePair) (jsonFileId filePair)
                          (videoFileName filePair) (jsonFileName filePair)
                          (mkPostMetadata (title (metadata filePair))
                                          (description (metadata filePair))
                                          (tags (metadata filePair)) s))
              results verdict (isXEnabled config)]
         /\ (verdict = true ->
             w AtMoveVideo = Returns /\ w AtMoveJson = Returns)
     | inl e =>
         reports (traceOf out) = [] /\ verdict = true
         /\ (w AtMoveVideo = Raises e
             \/ (w AtMoveVideo = Returns /\ w AtMoveJson = Raises e))
     end.
Proof.
  destruct (summary_quiet results) as [_ Hmoves].
  destruct (summary_read results) as [Hreports Hlines].
  unfold afterUploads, moveFilesToDone, sendResultEmail, currentMetadata,
    traceOf, stateOf, valueOf.
  destruct (isAllSuccess results (isXEnabled config));
    unfold_monad; rewrite ?logSummary_run;
    repeat (case_response; unfold_monad; rewrite ?logSummary_run);
    unfold reports, summaryLines, driveMoves in *; simpl;
    rewrite ?flat_map_app, ?Hmoves, ?Hreports, ?Hlines; simpl;
    rewrite ?app_nil_r; split_and!; auto; done.
Qed.


(** ** The status in memory and the status on Drive *)

Lemma acknowledge_phase4 t st :
  Forall phase4Event t -> (foldl acknowledge st t).2 = st.2.
Proof.
  intros Ht. revert st. induction Ht as [|ev t Hev _ IH]; intros st; [done|].
  simpl. rewrite IH.
  by destruct ev as [[] []| | | | | | | | | | | | | |].
Qed.

Lemma stored_parts config w filePair s :
  stored s (traceOf (processFilePair config w filePair s))
  = match w AtDownload with
    | Returns =>
        stored s (traceOf (uploadPhase config w filePair
                             (localPath (videoFileName filePair)) s))
    | Raises _ => s
    end.
Proof.
  rewrite processFilePair_parts. unfold stored, traceOf.
  destruct (w AtDownload) as [|e]; [|done].
  destruct (uploadPhase _ _ _ _ _) as [[t3 s3] [e|results]]; simpl.
  { by rewrite foldl_app. }
  pose proof (afterUploads_phase4 config w filePair results s3) as H4.
  unfold traceOf in H4.
  destruct (afterUploads _ _ _ _ _) as [[t4 s4] [e|[]]]; simpl;
    rewrite !foldl_app; simpl; by rewrite acknowledge_phase4.
Qed.

Lemma stateOf_parts config w filePair s :
  stateOf (processFilePair config w filePair s)
  = match w AtDownload with
    | Returns =>
        stateOf (uploadPhase config w filePair
                             (localPath (videoFileName filePair)) s)
    | Raises _ => s
    end.
Proof.
  rewrite processFilePair_parts. unfold stateOf.
  destruct (w AtDownload) as [|e]; [|done].
  destruct (uploadPhase _ _ _ _ _) as [[t3 s3] [e|results]]; [done|].
  destruct (afterUploads_cases config w filePair results s3) as [Hs _].
  unfold stateOf in Hs.
  by destruct (afterUploads _ _ _ _ _) as [[t4 s4] [e|[]]].
Qed.

(** The mailed reports of the processing, part by part. *)
Lemma reports_parts config w filePair s :
  reports (traceOf (processFilePair config w filePair s))
  = match w AtDownload with
    | Returns =>
        match uploadPhase config w filePair
                          (localPath (videoFileName filePair)) s with
        | (_, s3, inr results) =>
            reports (traceOf (afterUploads config w filePair results s3))
        | _ => []
        end
    | Raises _ => []
    end.
Proof. apply read_off_phase4. intros ev. by destruct ev as [[] []| | | | | | | | | | | | | |]. Qed.



(** ** The next run *)



(** ** How the processing of a file pair ends *)

Lemma driveMoves_parts config w filePair s :
  driveMoves (traceOf (processFilePair config w filePair s))
  = match w AtDownload with
    | Returns =>
        match uploadPhase config w filePair
                          (localPath (videoFileName filePair)) s with
        | (_, s3, inr results) =>
            driveMoves (traceOf (afterUploads config w filePair results s3))
        | _ => []
        end
    | Raises _ => []
    end.
Proof.
  apply read_off_phase4. intros ev.
  by destruct ev as [[] []| | | | | | | | | | | | | |].
Qed.

Lemma summaryLines_parts config w filePair s :
  summaryLines (traceOf (processFilePair config w filePair s))
  = match w AtDownload with
    | Returns =>
        match uploadPhase config w filePair
                          (localPath (videoFileName filePair)) s with
        | (_, s3, inr results) =>
            summaryLines (traceOf (afterUploads config w filePair results s3))
        | _ => []
        end
    | Raises _ => []
    end.
Proof.
  apply read_off_phase4. intros ev.
  by destruct ev as [[] []| | | | | | | | | | | | | |].
Qed.


(** X17. The two moves. The files of a pair are moved in a fixed order: the
    video first, and the JSON file only after the move of the video
    returned. If the move of the video throws, nothing has been moved
    through the program. If the move of the JSON file throws, the pair is
    left split, the video asked into the done folder and the JSON file
    still pending. In both cases the error ends the processing of the pair
    at the item boundary and no report is mailed. *)
Theorem moves_in_order (config : AppConfig) (w : Site -> Response)
        (filePair : FilePair) (s : UploadStatus) :
  let t := traceOf (processFilePair config w filePair s) in
  driveMoves t = []
  \/ (driveMoves t = [videoFileId filePair]
      /\ exists e, w AtMoveVideo = Raises e
                   /\ itemErrors t = [(videoFileName filePair, e)]
                   /\ reports t = [])
  \/ (driveMoves t = [videoFileId filePair; jsonFileId filePair]
      /\ w AtMoveVideo = Returns
      /\ match w AtMoveJson with
         | Returns => itemErrors t = [] /\ exists report, reports t = [report]
         | Raises e =>
             itemErrors t = [(videoFileName filePair, e)] /\ reports t = []
         end).
Proof.
  intros t. subst t. rewrite itemErrors_parts, reports_parts, driveMoves_parts.
  destruct (w AtDownload) as [|e]; [|by left].
  destruct (uploadPhase _ _ _ _ _) as [[t3 s3] [e|results]]; [by left|].
  destruct (afterUploads_cases config w filePair results s3)
    as (_ & _ & Hmoves & Hend).
  rewrite Hmoves. unfold valueOf in *.
  destruct (isAllSuccess results (isXEnabled config)); [|by left].
  right.
  destruct (afterUploads _ _ _ _ _) as [[t4 s4] [e|[]]]; simpl in *.
  - destruct Hend as (Hrep & _ & [Hv|[Hv Hj]]); rewrite Hv.
    + left. split; [done|]. by exists e.
    + right. rewrite Hj. by split_and!.
  - destruct Hend as (Hrep & Hok). destruct (Hok eq_refl) as [Hv Hj].
    rewrite Hv, Hj. right. split_and!; try done. by eexists.
Qed.

(** X18. The share link. The video of a pair is made readable by anyone
    at most once, and it is: whenever the download and the status writes
    of YouTube and TikTok return, the share is requested, whatever the
    flags are, so also when Instagram is already published and will be
    skipped. The Instagram publisher is called only after the share
    returned. When the share throws, the publishers of Instagram and of X
    are not called, although X needs no link; the error ends the
    processing of the pair and no report is mailed. *)
Theorem share_link_is_always_requested (config : AppConfig)
        (w : Site -> Response) (filePair : FilePair) (s : UploadStatus) :
  let t := traceOf (processFilePair config w filePair s) in
  (shares t = [] \/ shares t = [videoFileId filePair])
  /\ (Instagram ∈ publishCalls t ->
      shares t = [videoFileId filePair] /\ w AtShareLink = Returns)
  /\ (w AtDownload = Returns -> w (AtUpdateJson YouTube) = Returns ->
      w (AtUpdateJson TikTok) = Returns ->
      shares t = [videoFileId filePair])
  /\ (forall e, w AtShareLink = Raises e ->
                shares t = [videoFileId filePair] ->
                publishCalls t = [YouTube; TikTok]
                /\ itemErrors t = [(videoFileName filePair, e)]
                /\ reports t = []).
Proof.
  intros t. subst t. rewrite itemErrors_parts, reports_parts.
  unfold shares, publishCalls.
  rewrite !read_off_phase3 by (intros ev; by destruct ev).
  destruct (w AtDownload) as [|e0].
  2:{ split_and!; [by left| by intros ?%elem_of_nil |done|done]. }
  pose proof (uploadPhase_shares config w filePair
                (localPath (videoFileName filePair)) s)
    as (H1 & H2 & H3 & H4).
  unfold shares, publishCalls in *.
  split_and!; [done|done|by intros _|].
  intros e He Hs. destruct (H4 e He Hs) as [Hcalls Hv].
  unfold valueOf in Hv.
  destruct (uploadPhase _ _ _ _ _) as [[t3 s3] [e'|results]]; [|done].
  simpl in *. by injection Hv as ->.
Qed.

Lemma share_link_is_always_requested_witness :
  shares (traceOf (processFilePair (sampleConfig None false) allReturn donePair
                                   (upload_status (metadata donePair))))
  = [videoFileId donePair].
Proof.
  apply (share_link_is_always_requested (sampleConfig None false) allReturn
           donePair (upload_status (metadata donePair)));
    reflexivity.
Defined.

(** ** The report *)

Lemma report_facts config w item s :
  let out := processFilePair config w item s in
  Forall (fun report =>
            results report = outcomes (traceOf out)
            /\ map platform (results report) = platformOrder
            /\ (isXEnabled config = false ->
                Forall (fun r => platform r = X -> skipped r = true)
                       (results report))
            /\ summaryLines (traceOf out) = results report
            /\ upload_status (metadata (filePair report)) = stateOf out
            /\ stored s (traceOf out) = stateOf out
            /\ allSuccess report
               = isAllSuccess (results report) (isXEnabled config)
            /\ batchIsXEnabled report = isXEnabled config
            /\ itemErrors (traceOf out) = []
            /\ driveMoves (traceOf out)
               = if allSuccess report
                 then [videoFileId item; jsonFileId item] else [])
         (reports (traceOf out)).
Proof.
  intros out. subst out.
  rewrite reports_parts, summaryLines_parts, stateOf_parts, stored_parts,
    itemErrors_parts, driveMoves_parts.
  unfold outcomes. rewrite read_off_phase3 by (intros ev; by destruct ev).
  fold outcomes.
  destruct (w AtDownload) as [|e0]; [|constructor].
  pose proof (uploadPhase_results config w item
                (localPath (videoFileName item)) s) as Hresults.
  unfold traceOf, stateOf, valueOf in *. simpl in Hresults.
  destruct (uploadPhase _ _ _ _ _) as [[t3 s3] [e|results]]; [constructor|].
  destruct (Hresults results eq_refl) as (Hout & Horder & Hx & Hstored).
  destruct (afterUploads_cases config w item results s3)
    as (_ & Hlines & Hmoves & Hend).
  unfold traceOf, stateOf, valueOf in *.
  destruct (afterUploads _ _ _ _ _) as [[t4 s4] [e|[]]]; simpl in *.
  { destruct Hend as [-> _]. constructor. }
  destruct Hend as [-> Hok]. repeat constructor; simpl; try done.
  rewrite Hmoves. destruct (isAllSuccess results (isXEnabled config)); [|done].
  by destruct (Hok eq_refl) as [-> _].
Qed.


Lemma failedBadge_shown r :
  getStatusBadge r = failedBadge <-> skipped r = false /\ success r = false.
Proof.
  unfold getStatusBadge. destruct (skipped r), (success r); split;
    try done; try (by intros []);
    intros H; apply (f_equal (@length N)) in H; vm_compute in H; discriminate.
Qed.

Ltac decide_row :=
  split;
  [ intros ? [? ?]; congruence
  | intros Hrow; try reflexivity; exfalso; apply Hrow; by split ].

(** X20. The report mail agrees with itself and with the log. In a report
    that is handed to the mailer, the headline says that all posts
    succeeded exactly when no row of the table shows the badge FAILED;
    the badge of each row ends in the status that the summary of the log
    gives for the same outcome; and when the report says that X is
    disabled, the row of X shows SKIPPED. *)
Theorem report_mail_is_coherent (config : AppConfig) (w : Site -> Response)
        (item : FilePair) (s : UploadStatus) :
  Forall (fun report =>
            (overallStatus (allSuccess report) = overallStatus true
             <-> Forall (fun r => getStatusBadge r <> failedBadge)
                        (results report))
            /\ Forall (fun r => exists opening,
                           getStatusBadge r
                           = opening ++ statusLabel r ++ js "</span>")
                      (results report)
            /\ (batchIsXEnabled report = false ->
                Forall (fun r => platform r = X ->
                                 getStatusBadge r = skippedBadge)
                       (results report)))
         (reports (traceOf (processFilePair config w item s))).
Proof.
  eapply Forall_impl; [apply report_facts|].
  intros report (_ & _ & Hx & _ & _ & _ & Hverdict & Hen & _). split_and!.
  - rewrite Hverdict, isAllSuccess_forallb.
    assert (overallStatus (forallb (passes (isXEnabled config)) (results report))
            = overallStatus true
            <-> forallb (passes (isXEnabled config)) (results report) = true)
      as -> by (by destruct (forallb _ _)).
    rewrite forallb_forall, Forall_forall.
    assert (forall r, r ∈ results report ->
               (passes (isXEnabled config) r = true
                <-> getStatusBadge r <> failedBadge)) as Hrow.
    { intros r Hr. rewrite failedBadge_shown. unfold passes.
      destruct (isXEnabled config) eqn:Hon.
      - destruct (skipped r), (success r), (bool_decide (platform r = X));
          simpl; decide_row.
      - specialize (Hx eq_refl). rewrite Forall_forall in Hx.
        specialize (Hx r Hr). case_bool_decide as HX.
        + rewrite (Hx HX). simpl. decide_row.
        + destruct (skipped r), (success r); simpl; decide_row. }
    split.
    + intros H r Hr. apply Hrow; [done|]. apply H. by apply list_elem_of_In.
    + intros H r Hr%list_elem_of_In. apply Hrow; [done|]. by apply H.
  - apply Forall_forall. intros r _. unfold getStatusBadge, statusLabel.
    destruct (skipped r); [|destruct (success r)];
      [ exists (take (length skippedBadge - 14) skippedBadge)
      | exists (take (length successBadge - 14) successBadge)
      | exists (take (length failedBadge - 13) failedBadge) ];
      vm_compute; reflexivity.
  - rewrite Hen. intros Hoff. specialize (Hx Hoff).
    eapply Forall_impl; [exact Hx|]. intros r Hr HX.
    unfold getStatusBadge. by rewrite (Hr HX).
Qed.

(** ** The publisher of X *)

(** X21. The post to X follows its media. [uploadToX] contacts X only when
    X is enabled and configured and the flag of the record is not set; it
    sends the post, with the text cut to 280 code units, only after the
    upload of the video returned, and at most once; the outcome is a
    success that is not a skip exactly when both calls returned. When the
    upload of the video returns and the post throws, the outcome is the
    failure with the message of that error: the uploaded video stays
    without a post. The state is never changed and nothing is thrown. *)
Theorem tweet_follows_the_media {St} (w : Site -> Response)
        (config : option XConfig) (isXEnabled : bool) (videoPath : list N)
        (metadata : PostMetadata) (s : St) :
  let out := uploadToX w config isXEnabled videoPath metadata s in
  stateOf out = s
  /\ vendorUploads (traceOf out)
     = (if live config isXEnabled metadata then [X] else [])
  /\ tweets (traceOf out)
     = (if live config isXEnabled metadata
        then match w AtXUploadMedia with
             | Returns => [truncatedText metadata]
             | Raises _ => []
             end
        else [])
  /\ exists r,
       valueOf out = inr r /\ platform r = X
       /\ (success r = true /\ skipped r = false
           <-> live config isXEnabled metadata = true
               /\ w AtXUploadMedia = Returns /\ w AtXTweet = Returns)
       /\ (forall e, live config isXEnabled metadata = true ->
                     w AtXUploadMedia = Returns -> w AtXTweet = Raises e ->
                     r = failed X (errorMessage e)).
Proof.
  unfold uploadToX, called, uploadFailed, live, traceOf, stateOf, valueOf.
  destruct isXEnabled, config as [xc|], metadata as [? ? ? [? ? ? []]];
    simpl; unfold_monad;
    repeat (case_response; unfold_monad); simpl;
    (split_and!; [done|done|done|]); eexists;
    (split_and!; [reflexivity|reflexivity| |]); simpl;
    try (split; [intros [? ?]|intros (? & ? & ?)]; by try congruence);
    unfold failed; intros; congruence.
Qed.

Lemma tweet_follows_the_media_witness :
  tweets (traceOf (uploadToX (St := unit) allReturn (Some sampleXConfig) true
                             [] longPost tt))
  = [truncatedText longPost].
Proof.
  apply (tweet_follows_the_media allReturn (Some sampleXConfig) true []
           longPost tt).
Defined.

(** ** The mailer *)

(** Phase 3 asks nothing of the mailer. *)
Lemma uploadPhase_ext config w w' filePair videoPath s :
  (forall site, site <> AtSendMail -> w' site = w site) ->
  uploadPhase config w' filePair videoPath s
  = uploadPhase config w filePair videoPath s.
Proof.
  intros Hsame.
  unfold uploadPhase, recordSuccess, updateJsonStatus, getVideoShareLink.
  autounfold with publishers.
  by rewrite (Hsame AtYouTubeInsert), (Hsame AtTikTokPost),
    (Hsame AtInstagramPost), (Hsame AtXUploadMedia), (Hsame AtXTweet),
    (Hsame (AtUpdateJson YouTube)), (Hsame (AtUpdateJson TikTok)),
    (Hsame (AtUpdateJson Instagram)), (Hsame (AtUpdateJson X)),
    (Hsame AtShareLink) by done.
Qed.

Lemma removelast_three {A} (l : list A) a b c :
  removelast (l ++ [a; b; c]) = l ++ [a; b].
Proof.
  change [a; b; c] with ([a; b] ++ [c]). by rewrite app_assoc, removelast_last.
Qed.

Lemma last_three {A} (l : list A) a b c : last (l ++ [a; b; c]) = Some c.
Proof.
  change [a; b; c] with ([a; b] ++ [c]). by rewrite app_assoc, last_snoc.
Qed.

#[local] Arguments removelast {A} l : simpl never.
#[local] Arguments last {A} l : simpl never.

(** Phase 4 up to the answer of the mailer. *)
Lemma afterUploads_mail config w w' filePair results s :
  (forall site, site <> AtSendMail -> w' site = w site) ->
  let out := afterUploads config w filePair results s in
  let out' := afterUploads config w' filePair results s in
  match valueOf out with
  | inl _ => out' = out
  | inr _ =>
      valueOf out' = valueOf out /\ stateOf out' = stateOf out
      /\ removelast (traceOf out') = removelast (traceOf out)
      /\ traceOf out <> [] /\ traceOf out' <> []
      /\ last (traceOf out) = Some (mailLine (w AtSendMail))
      /\ last (traceOf out') = Some (mailLine (w' AtSendMail))
  end.
Proof.
  intros Hsame. cbv zeta.
  unfold afterUploads, moveFilesToDone, sendResultEmail, currentMetadata,
    traceOf, stateOf, valueOf.
  rewrite (Hsame AtMoveVideo), (Hsame AtMoveJson) by done.
  destruct (isAllSuccess results (isXEnabled config));
    unfold_monad; rewrite ?logSummary_run;
    repeat (case_response; unfold_monad; rewrite ?logSummary_run);
    try reflexivity;
    destruct (w' AtSendMail); simpl;
    rewrite !app_comm_cons, !removelast_three, !last_three; by split_and!.
Qed.

(** X22. The mailer changes one line. Take two runs of the processing of a
    file pair in which everything outside answers the same, except
    possibly the mailer. They end in the same state with the same result,
    and their traces are the same up to the last event: the same requests
    to Drive and to the platforms, the same status writes, the same moves,
    the same report. When a report is mailed, the last event of each run
    is the line of the mailer, sent or failed, and a failure of the mailer
    is no item-level error. *)
Theorem mailer_changes_one_line (config : AppConfig) (w w' : Site -> Response)
        (filePair : FilePair) (s : UploadStatus) :
  (forall site, site <> AtSendMail -> w' site = w site) ->
  let out := processFilePair config w filePair s in
  let out' := processFilePair config w' filePair s in
  stateOf out' = stateOf out /\ valueOf out' = valueOf out
  /\ removelast (traceOf out') = removelast (traceOf out)
  /\ itemErrors (traceOf out') = itemErrors (traceOf out)
  /\ (reports (traceOf out) <> [] ->
      last (traceOf out) = Some (mailLine (w AtSendMail))
      /\ last (traceOf out') = Some (mailLine (w' AtSendMail))).
Proof.
  intros Hsame out out'. subst out out'.
  rewrite !itemErrors_parts, reports_parts, !processFilePair_parts.
  rewrite (uploadPhase_ext config w w') by done.
  rewrite (Hsame AtDownload) by done.
  destruct (w AtDownload) as [|e0]; [|done].
  destruct (uploadPhase _ _ _ _ _) as [[t3 s3] [e|results]]; [done|].
  pose proof (afterUploads_mail config w w' filePair results s3 Hsame) as Hmail.
  destruct (afterUploads_cases config w filePair results s3)
    as (_ & _ & _ & Hend).
  unfold traceOf, stateOf, valueOf in *. simpl in Hmail.
  destruct (afterUploads config w filePair results s3)
    as [[t4 s4] [e|[]]]; simpl in *.
  { rewrite Hmail. split_and!; try done. by destruct Hend as [-> _]. }
  destruct (afterUploads config w' filePair results s3)
    as [[t4' s4'] r4']; simpl in *.
  destruct Hmail as (-> & -> & Hcut & Hne & Hne' & Hlast & Hlast').
  simpl.
  rewrite !app_comm_cons, !removelast_app, !last_app, Hcut, Hlast, Hlast'
    by done.
  by split_and!.
Qed.

Lemma mailer_changes_one_line_witness :
  itemErrors (traceOf (processFilePair (sampleConfig None false) mailDown
                         freshPair (upload_status (metadata freshPair))))
  = itemErrors (traceOf (processFilePair (sampleConfig None false) allReturn
                           freshPair (upload_status (metadata freshPair)))).
Proof.
  apply (mailer_changes_one_line (sampleConfig None false) allReturn mailDown
           freshPair (upload_status (metadata freshPair))).
  intros site Hsite. destruct site; try reflexivity. by destruct Hsite.
Defined.

(** ** The status checks of Instagram *)

Lemma awaitContainer_spec api containerId remaining i :
  let out := awaitContainer api containerId i remaining in
  (statusRequests out.1 <= remaining)%nat
  /\ waited out.1 = STATUS_CHECK_INTERVAL * N.of_nat (statusRequests out.1)
  /\ publications out.1 = [] /\ containers out.1 = []
  /\ (out.2 = inr true
      <-> exists k, (k < remaining)%nat
                    /\ statusCheck api (i + k) = inr (Some (js "FINISHED"))
                    /\ forall j, (j < k)%nat ->
                                 goesOn (statusCheck api (i + j)) = true)
  /\ (out.2 = inr false
      <-> forall k, (k < remaining)%nat ->
                    goesOn (statusCheck api (i + k)) = true)
  /\ (out.2 = inr false -> statusRequests out.1 = remaining).
Proof.
  revert i. induction remaining as [|n IH]; intros i; simpl.
  { split_and!; try done; try lia.
    - split; [done|]. intros (k & Hk & _). lia.
    - split; [|done]. intros _ k Hk. lia. }
  destruct (statusCheck api i) as [e|statusCode] eqn:Hi.
  { simpl. split_and!; try done; try (unfold statusRequests; simpl; lia).
    - split; [done|]. intros (k & Hk & Hfin & Hbefore). destruct k as [|k].
      + rewrite Nat.add_0_r, Hi in Hfin. done.
      + specialize (Hbefore 0%nat ltac:(lia)).
        rewrite Nat.add_0_r, Hi in Hbefore. done.
    - split; [done|]. intros Hall. specialize (Hall 0%nat ltac:(lia)).
      rewrite Nat.add_0_r, Hi in Hall. done. }
  case_bool_decide as Hfinished.
  { simpl. split_and!; try done; try (unfold statusRequests; simpl; lia).
    - split; [|done]. intros _. exists 0%nat.
      rewrite Nat.add_0_r, Hi, Hfinished. split_and!; [lia|done|lia].
    - split; [done|]. intros Hall. specialize (Hall 0%nat ltac:(lia)).
      rewrite Nat.add_0_r, Hi in Hall. simpl in Hall.
      by rewrite bool_decide_eq_true_2 in Hall. }
  case_bool_decide as Herror.
  { simpl. split_and!; try done; try (unfold statusRequests; simpl; lia).
    - split; [done|]. intros (k & Hk & Hfin & Hbefore). destruct k as [|k].
      + rewrite Nat.add_0_r, Hi in Hfin. congruence.
      + specialize (Hbefore 0%nat ltac:(lia)).
        rewrite Nat.add_0_r, Hi in Hbefore. simpl in Hbefore.
        rewrite (bool_decide_eq_true_2 _ Herror) in Hbefore.
        by rewrite andb_false_r in Hbefore.
    - split; [done|]. intros Hall. specialize (Hall 0%nat ltac:(lia)).
      rewrite Nat.add_0_r, Hi in Hall. simpl in Hall.
      rewrite (bool_decide_eq_true_2 _ Herror) in Hall.
      by rewrite andb_false_r in Hall. }
  assert (goesOn (statusCheck api i) = true) as Hon.
  { rewrite Hi. simpl. by rewrite !bool_decide_eq_false_2. }
  specialize (IH (S i)).
  destruct (awaitContainer api containerId (S i) n) as [t' r]. simpl in *.
  destruct IH as (Hreq & Hwait & Hpub & Hcont & Htrue & Hfalse & Hfull).
  unfold statusRequests, waited in *. simpl. split_and!; try done; try lia.
  - rewrite Htrue. split.
    + intros (k & Hk & Hfin & Hbefore). exists (S k).
      rewrite Nat.add_succ_r. split_and!; [lia|done|].
      intros [|j] Hj; [by rewrite Nat.add_0_r|].
      rewrite Nat.add_succ_r. apply Hbefore. lia.
    + intros (k & Hk & Hfin & Hbefore). destruct k as [|k].
      { rewrite Nat.add_0_r, Hi in Hfin. congruence. }
      exists k. rewrite Nat.add_succ_r in Hfin. split_and!; [lia|done|].
      intros j Hj. specialize (Hbefore (S j) ltac:(lia)).
      by rewrite Nat.add_succ_r in Hbefore.
  - rewrite Hfalse. split.
    + intros Hall [|k] Hk; [by rewrite Nat.add_0_r|].
      rewrite Nat.add_succ_r. apply Hall. lia.
    + intros Hall k Hk. specialize (Hall (S k) ltac:(lia)).
      by rewrite Nat.add_succ_r in Hall.
  - intros Hr. specialize (Hfull Hr). lia.
Qed.

(** X23. The upload to Instagram waits for the container, and not for
    ever. The block asks for the status of the media container at most 60
    times, sleeping 5000 ms before each request, so it waits at most
    300000 ms. It asks for the publication exactly when the container was
    created and some check among the 60 reports [FINISHED] after checks
    that all returned a status other than [FINISHED] and [ERROR], for the
    container that was created, and once; it returns exactly when that
    publication call then returns. When all 60 checks return such a status
    it throws the timeout error after 60 requests and publishes nothing.
    The caption is the title, an empty line and the description, whatever
    their length. *)
Theorem reel_is_published_within_the_checks (api : GraphApi)
        (config : InstagramConfig) (videoUrl : list N)
        (metadata : PostMetadata) :
  let out := publishReel api config videoUrl metadata in
  (statusRequests out.1 <= MAX_STATUS_CHECKS)%nat
  /\ waited out.1 = STATUS_CHECK_INTERVAL * N.of_nat (statusRequests out.1)
  /\ waited out.1 <= 300000
  /\ containers out.1
     = [(videoUrl, title metadata ++ [10; 10] ++ description metadata)]
  /\ (forall containerId,
         createContainer api = inr containerId ->
         ((exists i, (i < MAX_STATUS_CHECKS)%nat /\ finishedAt api i)
          <-> publications out.1 = [containerId])
         /\ (publications out.1 = [] \/ publications out.1 = [containerId])
         /\ ((forall i, (i < MAX_STATUS_CHECKS)%nat ->
                        goesOn (statusCheck api i) = true) ->
             out.2 = inl containerTimeout
             /\ statusRequests out.1 = MAX_STATUS_CHECKS
             /\ publications out.1 = []))
  /\ (forall e, createContainer api = inl e ->
                out = ([CreateContainer
                          videoUrl
                          (title metadata ++ [10; 10] ++ description metadata)],
                       inl e))
  /\ (out.2 = inr tt
      <-> publications out.1 <> []
          /\ exists mediaId, publishMedia api = inr mediaId).
Proof.
  unfold publishReel. cbv zeta.
  destruct (createContainer api) as [e|containerId] eqn:Hcreate.
  { simpl. split_and!; try done.
    - unfold statusRequests, MAX_STATUS_CHECKS. simpl. lia.
    - by intros e' [= <-].
    - split; [done|]. by intros [? _]. }
  pose proof (awaitContainer_spec api containerId MAX_STATUS_CHECKS 0)
    as (Hreq & Hwait & Hpub & Hcont & Htrue & Hfalse & Hfull).
  destruct (awaitContainer api containerId 0 MAX_STATUS_CHECKS) as [t r].
  simpl in Hreq, Hwait, Hpub, Hcont, Htrue, Hfalse, Hfull.
  assert (waited t <= 300000) as Hbound.
  { rewrite Hwait. unfold STATUS_CHECK_INTERVAL, MAX_STATUS_CHECKS in *. lia. }
  assert ((exists i, (i < MAX_STATUS_CHECKS)%nat /\ finishedAt api i)
          <-> r = inr true) as Hfin.
  { rewrite Htrue. unfold finishedAt. split; intros (k & Hk & H1 & H2);
      exists k; by split_and!. }
  destruct r as [e|[|]]; simpl.
  - unfold statusRequests, waited, publications, containers in *. simpl.
    rewrite Hcont, Hpub. split_and!; try done.
    + intros c [= <-]. split_and!.
      * rewrite Hfin. by split.
      * by left.
      * intros Hall. by apply Hfalse in Hall.
    + split; [done|]. by intros [? _].
  - unfold statusRequests, waited, publications, containers in *. simpl.
    rewrite !flat_map_app, ?length_app, Hcont, Hpub. simpl.
    rewrite ?app_nil_r, ?Nat.add_0_r.
    assert (foldr N.add 0
              (flat_map (fun ev => match ev with
                                   | Sleep ms => [ms]
                                   | _ => []
                                   end) t ++ []) = waited t) as Hsame
      by (by rewrite app_nil_r).
    unfold waited in Hsame. rewrite ?Hsame.
    split_and!; try done.
    + intros c [= <-]. split_and!.
      * rewrite Hfin. by split.
      * by right.
      * intros Hall. by apply Hfalse in Hall.
    + destruct (publishMedia api) as [e|mediaId]; split; try done.
      * by intros [_ [? ?]].
      * intros _. split; [done|]. by eexists.
  - unfold statusRequests, waited, publications, containers in *. simpl.
    rewrite Hcont, Hpub. split_and!; try done.
    + intros c [= <-]. split_and!.
      * rewrite Hfin. by split.
      * by left.
      * intros _. split_and!; [done|by apply Hfull|done].
    + split; [done|]. by intros [? _].
Qed.

Lemma reel_is_published_within_the_checks_witness :
  publications (publishReel thirdCheckApi (mkInstagramConfig [] []) []
                            allDone).1
  = [js "c1"]
  /\ (publishReel neverReadyApi (mkInstagramConfig [] []) [] allDone).2
     = inl containerTimeout.
Proof.
  destruct (reel_is_published_within_the_checks
              thirdCheckApi (mkInstagramConfig [] []) [] allDone)
    as (_ & _ & _ & _ & Hthird & _).
  destruct (reel_is_published_within_the_checks
              neverReadyApi (mkInstagramConfig [] []) [] allDone)
    as (_ & _ & _ & _ & Hnever & _).
  split.
  - apply (Hthird (js "c1") eq_refl). exists 2%nat.
    split; [unfold MAX_STATUS_CHECKS; lia|].
    split; [reflexivity|]. intros j Hj.
    destruct j as [|[|j]]; [reflexivity|reflexivity|lia].
  - apply (Hnever (js "c1") eq_refl). intros i _. reflexivity.
Defined.
